(** * Portfolio manager: the scanner -> validation -> watchlist -> order pipeline

    A shallow embedding of [screener.py] and the order sweep of [main.py].

    Conventions of the model.
    - A Python [str] is a list of ASCII characters ([list ascii]); [txt]
      turns a literal into one.  Case mapping, white space and the regular
      expression classes are the ASCII ones.
    - A text file is the list of its lines, each line without its line
      terminator; a file that does not exist is [None].  Every line the
      programs write ends in a newline, so a file is always a sequence of
      complete lines.  Reads and writes are assumed to succeed.
    - Python floats are an abstract type with the operations the code
      applies to them ([FloatOps]); no law is assumed about them.
    - The collaborators (price history, brokerage) are oracles indexed by
      the number of calls made so far, and every call is recorded in a
      trace. *)

From Stdlib Require Import Ascii String List Arith Bool Lia ZArith QArith DecimalString.
From stdpp Require Import base list gmap strings.
Import ListNotations.

Local Open Scope nat_scope.
Local Open Scope list_scope.

(** ** Text *)

Module Text.

Abbreviation str := (list ascii).

Definition txt (s : string) : str := list_ascii_of_string s.

Definition code (c : ascii) : nat := nat_of_ascii c.

Definition between (lo hi : nat) (c : ascii) : bool :=
  (lo <=? code c) && (code c <=? hi).

Definition is_upper : ascii -> bool := between 65 90.
Definition is_lower : ascii -> bool := between 97 122.
Definition is_digit : ascii -> bool := between 48 57.

(** [\w] of the [re] module, on ASCII. *)
Definition is_word (c : ascii) : bool :=
  is_upper c || is_lower c || is_digit c || (code c =? 95).

(** [str.isspace] on ASCII: tab, LF, VT, FF, CR, FS, GS, RS, US, space. *)
Definition is_space (c : ascii) : bool :=
  between 9 13 c || between 28 32 c.

Definition upper_char (c : ascii) : ascii :=
  if is_lower c then ascii_of_nat (code c - 32) else c.

Definition lower_char (c : ascii) : ascii :=
  if is_upper c then ascii_of_nat (code c + 32) else c.

(** [s.upper()], [s.lower()] *)
Definition upper (s : str) : str := map upper_char s.
Definition lower (s : str) : str := map lower_char s.

Fixpoint take_while (p : ascii -> bool) (s : str) : str :=
  match s with
  | c :: s' => if p c then c :: take_while p s' else []
  | [] => []
  end.

Fixpoint drop_while (p : ascii -> bool) (s : str) : str :=
  match s with
  | c :: s' => if p c then drop_while p s' else s
  | [] => []
  end.

(** [s.strip()] *)
Definition strip (s : str) : str :=
  rev (drop_while is_space (rev (drop_while is_space s))).

Definition starts_token (sep : ascii -> bool) (s : str) : bool :=
  match s with
  | c :: _ => negb (sep c)
  | [] => false
  end.

Definition push_char (c : ascii) (joins : bool) (ts : list str) : list str :=
  match joins, ts with
  | true, t :: ts' => (c :: t) :: ts'
  | _, _ => [c] :: ts
  end.

(** The maximal runs of characters that are not separators, in order. *)
Fixpoint tokens (sep : ascii -> bool) (s : str) : list str :=
  match s with
  | [] => []
  | c :: s' =>
      if sep c then tokens sep s'
      else push_char c (starts_token sep s') (tokens sep s')
  end.

(** [s.split()] *)
Definition split (s : str) : list str := tokens is_space s.

Fixpoint is_prefix (p s : str) : bool :=
  match p, s with
  | [], _ => true
  | a :: p', b :: s' => bool_decide (a = b) && is_prefix p' s'
  | _ :: _, [] => false
  end.

(** [p in s] *)
Fixpoint contains (p s : str) : bool :=
  is_prefix p s ||
  match s with
  | _ :: s' => contains p s'
  | [] => false
  end.

(** *** [re.findall(r'\b[A-Z]{1,5}\b', text)] *)

Definition word_before (prev : option ascii) : bool :=
  from_option is_word false prev.

(** [\b] at a position: exactly one of the two neighbours is a word
    character (the ends of the text count as non-word). *)
Definition boundary (prev : option ascii) (next : str) : bool :=
  xorb (word_before prev)
       (match next with c :: _ => is_word c | [] => false end).

(** [[A-Z]{k}\b] at the head of [s]. *)
Definition try_len (k : nat) (s : str) : option str :=
  let m := take k s in
  if (length m =? k) && forallb is_upper m && boundary (last m) (drop k s)
  then Some m else None.

(** The greedy quantifier: the longest repetition first, then shorter
    ones on backtracking, down to one letter. *)
Fixpoint try_greedy (k : nat) (s : str) : option str :=
  match k with
  | 0 => None
  | S k' =>
      match try_len k s with
      | Some m => Some m
      | None => try_greedy k' s
      end
  end.

Definition match_at (prev : option ascii) (s : str) : option str :=
  if boundary prev s then try_greedy 5 s else None.

(** The scan of [findall]: try a match at each position from the left; a
    match is reported and the scan resumes after it ([skip] counts the
    characters of the match still to pass over). *)
Fixpoint findall_go (skip : nat) (prev : option ascii) (s : str) : list str :=
  match s with
  | [] => []
  | c :: rest =>
      match skip with
      | S k => findall_go k (Some c) rest
      | 0 =>
          match match_at prev s with
          | Some m => m :: findall_go (length m - 1) (Some c) rest
          | None => findall_go 0 (Some c) rest
          end
      end
  end.

Definition findall_ticker_pattern (text : str) : list str :=
  findall_go 0 None text.

(** *** Words and symbols *)

Definition non_word (c : ascii) : bool := negb (is_word c).

(** The maximal runs of word characters of a text: the stretches between
    two word boundaries. *)
Definition word_runs (text : str) : list str := tokens non_word text.

(** A symbol: one to five capital letters. *)
Definition is_symbol (t : str) : bool :=
  (1 <=? length t) && (length t <=? 5) && forallb is_upper t.

(** Nothing to strip at either end. *)
Definition trimmed (s : str) : Prop :=
  s = [] \/ (starts_token is_space s = true /\ starts_token is_space (rev s) = true).

(** A non-empty word without white space, in upper case: what the scanner
    selects and what the watchlist holds. *)
Definition clean (t : str) : Prop :=
  t <> [] /\ forallb (fun x => negb (is_space x)) t = true /\ upper t = t.

End Text.

Import Text.

(** ** Floats

    The operations the programs apply to Python floats.  [fgt x y] is the
    comparison [x > y]; [feq x y] is [x == y] (false on a NaN, so that
    [feq x x] tells a number from a NaN); [fmt2 x] is [f"{x:.2f}"]; [float_repr x] is
    [str(x)]; [float_of_str s] is [float(s)], [None] when it raises
    [ValueError]; [fnan] is the value pandas puts where a rolling window
    is not yet full. *)

Class FloatOps (F : Type) := {
  fadd : F -> F -> F;
  fsub : F -> F -> F;
  fmul : F -> F -> F;
  fdiv : F -> F -> F;
  fsqrt : F -> F;
  float_of_nat : nat -> F;
  fnan : F;
  fgt : F -> F -> bool;
  feq : F -> F -> bool;
  fmt2 : F -> str;
  float_repr : F -> str;
  float_of_str : str -> option F
}.

(** ** screener.py *)

Module Screener.

(** Iteration order of a Python [set].  [union_iter existing added] is the
    order in which [set(existing).union(added)] is iterated; Python fixes
    only that every element comes up exactly once. *)
Class SetOrder := {
  union_iter : list str -> list str -> list str;
  union_iter_NoDup : forall existing added, NoDup (union_iter existing added);
  union_iter_elem : forall existing added x,
    x ∈ union_iter existing added <-> x ∈ existing \/ x ∈ added
}.

Definition marker : str := txt "bbauto".

Definition excluded_words : list str :=
  map txt ["ALERT"; "NEW"; "SYMBOL"; "WAS"; "ADDED"; "TO"; "BBAUTO"; "FROM";
           "THE"; "IN"; "AT"; "ON"; "BY"; "FOR"; "WITH"]%string.

Definition excluded (t : str) : bool := bool_decide (t ∈ excluded_words).

Definition extract_ticker_symbols (text : str) : list str :=
  if negb (contains marker (lower text)) then []
  else filter (fun ticker => negb (excluded ticker)) (findall_ticker_pattern text).

(** The extraction as the specification words it: nothing without the
    marker; with it, the symbols among the word runs that are not stop
    words. *)
Definition reference_symbols (text : str) : list str :=
  filter (fun t => is_symbol t && negb (excluded t)) (word_runs text).

Definition reference_extract (text : str) : gset str :=
  if contains marker (lower text) then list_to_set (reference_symbols text) else ∅.

(** The first white-space delimited token of a line, if it has one. *)
Definition first_token (line : str) : option str := head (split line).

(** The line has a first token and it is not [symbol], whatever the case. *)
Definition has_other_first_token (symbol line : str) : bool :=
  match first_token line with
  | Some t => negb (bool_decide (upper t = upper symbol))
  | None => false
  end.

(** *** State *)

Section WithFloat.
Context {F : Type} `{FloatOps F}.

Record bar := {
  Date : str;
  Open : F;
  High : F;
  Low : F;
  Close : F
}.

(** The result of one [Ticker(symbol).history(period)] call. *)
Inductive fetched :=
| Frame (df : list bar)
| SocketTimeout
| OtherError.

Inductive event :=
| Fetched (symbol : str)
| ScannerWritten (lines : list str)
| WatchlistAppended (line : str).

(** The processor's [open_positions] attribute, the three files, and the
    effects so far (oldest first). *)
Record state := {
  open_positions : gset str;
  scanner : option (list str);
  watchlist : option (list str);
  openpositions : option (list str);
  trace : list event
}.

Definition log (e : event) (st : state) : state :=
  {| open_positions := open_positions st; scanner := scanner st;
     watchlist := watchlist st; openpositions := openpositions st;
     trace := trace st ++ [e] |}.

Definition write_scanner (lines : list str) (st : state) : state :=
  log (ScannerWritten lines)
    {| open_positions := open_positions st; scanner := Some lines;
       watchlist := watchlist st; openpositions := openpositions st;
       trace := trace st |}.

Definition append_watchlist (line : str) (st : state) : state :=
  log (WatchlistAppended line)
    {| open_positions := open_positions st; scanner := scanner st;
       watchlist := Some (default [] (watchlist st) ++ [line]);
       openpositions := openpositions st; trace := trace st |}.

Definition set_open_positions (s : gset str) (st : state) : state :=
  {| open_positions := s; scanner := scanner st; watchlist := watchlist st;
     openpositions := openpositions st; trace := trace st |}.

Definition is_fetch (e : event) : bool :=
  match e with Fetched _ => true | _ => false end.

Definition fetch_count (st : state) : nat :=
  length (filter (fun e => is_fetch e) (trace st)).

(** *** Queue files *)

Definition nonempty {A} (l : list A) : bool :=
  match l with [] => false | _ :: _ => true end.

(** [parts[0]]; the callers only index a non-empty list. *)
Definition first (parts : list str) : str := hd [] parts.

Definition update_scanner_file `{SetOrder} (tickers : list str) (st : state) : state :=
  let existing_tickers :=
    match scanner st with
    | Some lines => map strip lines
    | None => []
    end in
  write_scanner (union_iter existing_tickers tickers) st.

Definition _load_symbols (lines : list str) : gset str :=
  list_to_set
    (map (fun line => upper (first (split line)))
         (filter (fun line => nonempty (strip line) && nonempty (split line)) lines)).

Definition keeps (ticker_to_remove : str) (line : str) : bool :=
  nonempty (strip line) &&
  negb (bool_decide (upper (first (split (strip line))) = upper ticker_to_remove)).

Definition _remove_ticker_from_scanner (ticker_to_remove : str) (st : state) : state :=
  match scanner st with
  | Some lines => write_scanner (filter (fun line => keeps ticker_to_remove line) lines) st
  | None => st
  end.




(** The loop of [get_first_ticker_from_scanner] over the lines read when the
    file was opened, for a file that fits the read buffer
    ([fits_read_buffer]): the removals the loop makes rewrite the file but
    not the lines already read. *)
Fixpoint first_ticker_scan (lines : list str) (st : state) : option str * state :=
  match lines with
  | [] => (None, st)
  | line :: rest =>
      let line := strip line in
      if negb (nonempty line) then first_ticker_scan rest st
      else
        let ticker := upper (first (split line)) in
        if bool_decide (ticker ∈ open_positions st)
        then first_ticker_scan rest (_remove_ticker_from_scanner ticker st)
        else (Some ticker, st)
  end.

Definition get_first_ticker_from_scanner (st : state) : option str * state :=
  match scanner st with
  | None => (None, st)
  | Some lines => first_ticker_scan lines st
  end.

Definition _get_watchlist_symbols (st : state) : gset str :=
  match watchlist st with
  | None => ∅
  | Some lines => _load_symbols lines
  end.

Definition watchlist_line (symbol : str) (low_price : F) : str :=
  symbol ++ txt " " ++ fmt2 low_price.

Definition add_to_watchlist (symbol : str) (low_price : F) (st : state) : state :=
  if bool_decide (symbol ∈ _get_watchlist_symbols st) then st
  else append_watchlist (watchlist_line symbol low_price) st.

(** *** Price history *)

(** The price-data collaborator: the answer to the [n]-th call overall. *)
Definition market_oracle := nat -> str -> fetched.

Definition max_retries : nat := 2.

(** [download_historical_data]: [attempts] is the number of attempts left.
    An empty frame ends the download at once; an exception is retried
    while an attempt is left. *)
Fixpoint download_attempts (attempts : nat) (market : market_oracle)
    (symbol : str) (st : state) : option (list bar) * state :=
  match attempts with
  | 0 => (None, st)
  | S attempts' =>
      let answer := market (fetch_count st) symbol in
      let st := log (Fetched symbol) st in
      match answer with
      | Frame df => if nonempty df then (Some df, st) else (None, st)
      | SocketTimeout | OtherError => download_attempts attempts' market symbol st
      end
  end.

Definition download_historical_data (market : market_oracle) (symbol : str)
    (st : state) : option (list bar) * state :=
  download_attempts max_retries market symbol st.

(** *** Indicators *)

Definition fsum (xs : list F) : F := fold_left fadd xs (float_of_nat 0).

(** pandas' exponentially weighted mean ([adjust=False], [ignore_na=False],
    [min_periods=0]).  Its running state is the average so far, the weight
    that average carries, and the number of observations seen; a value
    that is a NaN is not an observation. *)
Record ewm_state := {
  weighted : F;
  old_wt : F;
  nobs : nat
}.

Definition is_observation (x : F) : bool := feq x x.

Definition observed (x : F) : nat := if is_observation x then 1 else 0.

Definition ewm_start (x : F) : ewm_state :=
  {| weighted := x; old_wt := float_of_nat 1; nobs := observed x |}.

(** One more value [cur]: the weight of the average decays; an observation
    is blended in (unless it equals the average) and the weight is reset;
    a NaN leaves the average as it is; an average that is still a NaN is
    replaced by the first observation. *)
Definition ewm_step (alpha : F) (s : ewm_state) (cur : F) : ewm_state :=
  let n := nobs s + observed cur in
  if is_observation (weighted s) then
    let wt := fmul (old_wt s) (fsub (float_of_nat 1) alpha) in
    if is_observation cur then
      {| weighted :=
           if negb (feq (weighted s) cur)
           then fdiv (fadd (fmul wt (weighted s)) (fmul alpha cur)) (fadd wt alpha)
           else weighted s;
         old_wt := float_of_nat 1;
         nobs := n |}
    else {| weighted := weighted s; old_wt := wt; nobs := n |}
  else if is_observation cur then
    {| weighted := cur; old_wt := old_wt s; nobs := n |}
  else {| weighted := weighted s; old_wt := old_wt s; nobs := n |}.

(** The value reported for a bar: the average once there is an observation. *)
Definition ewm_output (s : ewm_state) : F :=
  if 1 <=? nobs s then weighted s else fnan.

Fixpoint ewm_from (alpha : F) (s : ewm_state) (xs : list F) : list F :=
  match xs with
  | [] => []
  | x :: xs' =>
      let s' := ewm_step alpha s x in
      ewm_output s' :: ewm_from alpha s' xs'
  end.

(** The smoothing factor pandas derives from a span, through the centre of
    mass [(span - 1) / 2]. *)
Definition ewm_alpha (span : nat) : F :=
  let com := fdiv (fsub (float_of_nat span) (float_of_nat 1)) (float_of_nat 2) in
  fdiv (float_of_nat 1) (fadd (float_of_nat 1) com).

(** [series.ewm(span=span, adjust=False).mean()] *)
Definition ewm_mean (span : nat) (xs : list F) : list F :=
  match xs with
  | [] => []
  | x :: xs' => ewm_output (ewm_start x) :: ewm_from (ewm_alpha span) (ewm_start x) xs'
  end.

Definition calculate_ema (df : list bar) (period : nat) : option (list F) :=
  if length df <? period then None
  else Some (ewm_mean period (map Close df)).

(** [series.rolling(window=w)]: the window ending at index [i], once full. *)
Definition window_at (w i : nat) (xs : list F) : option (list F) :=
  if w <=? S i then Some (take w (drop (S i - w) xs)) else None.

Definition rolling (w : nat) (f : list F -> F) (xs : list F) : list F :=
  map (fun i => match window_at w i xs with
                | Some win => f win
                | None => fnan
                end)
      (seq 0 (length xs)).

Definition mean (win : list F) : F :=
  fdiv (fsum win) (float_of_nat (length win)).

(** Sample standard deviation (pandas' default, [ddof=1]). *)
Definition std (win : list F) : F :=
  let m := mean win in
  fsqrt (fdiv (fsum (map (fun x => fmul (fsub x m) (fsub x m)) win))
              (float_of_nat (length win - 1))).

Record bands := {
  middle : list F;
  upper_band : list F;
  lower_band : list F
}.

Definition calculate_bollinger_bands (df : list bar) (period std_dev : nat)
    : option bands :=
  if length df <? period then None
  else
    let middle_band := rolling period mean (map Close df) in
    let sd := rolling period std (map Close df) in
    let scaled := map (fun s => fmul s (float_of_nat std_dev)) sd in
    Some {| middle := middle_band;
            upper_band := zip_with fadd middle_band scaled;
            lower_band := zip_with fsub middle_band scaled |}.

(** [iloc[-1]] of a series; only applied to non-empty series. *)
Definition iloc_last (xs : list F) : F := List.last xs fnan.

(** The backward loop [for i in range(start, 0, -1)] of
    [calculate_bars_since_crossover], with both of its returning branches. *)
Fixpoint crossover_scan (above : list bool) (i : nat) : nat :=
  match i with
  | 0 => length above
  | S i' =>
      if negb (nth i' above false) && nth i above false then length above - i
      else if negb (nth i' above false) then length above - i
      else crossover_scan above i'
  end.

(** Comparing two series of different lengths raises, and so does
    [iloc[-1]] on an empty one; the function catches both and returns
    [None]. *)
Definition calculate_bars_since_crossover (ema_21 ema_100 : list F) : option nat :=
  if negb (length ema_21 =? length ema_100) then None
  else
    let above := zip_with fgt ema_21 ema_100 in
    if negb (nonempty above) then None
    else if negb (List.last above false) then None
    else Some (crossover_scan above (length above - 1)).

(** *** Validation *)

Record validation_values := {
  ema_21 : F;
  ema_100 : F;
  bb_upper : F;
  bb_middle : F;
  current_price : F;
  current_open : F;
  low_price : F;
  date : str;
  bars_since_crossover : option nat;
  ema_check : bool;
  bullish_bar : bool;
  above_bb_upper : bool
}.

(** What [validate_ema_criteria] computes from a downloaded frame; the
    empty dictionary is [None].  [crossover] stands for the call of
    [calculate_bars_since_crossover]. *)
Definition validate_frame_with (crossover : list F -> list F -> option nat)
    (df : list bar) : bool * option validation_values :=
  match calculate_ema df 21, calculate_ema df 100 with
  | Some ema_21_series, Some ema_100_series =>
      match calculate_bollinger_bands df 20 2 with
      | None => (false, None)
      | Some bb_bands =>
          let ema_21 := iloc_last ema_21_series in
          let ema_100 := iloc_last ema_100_series in
          let bb_upper := iloc_last (upper_band bb_bands) in
          let bb_middle := iloc_last (middle bb_bands) in
          let current_close := iloc_last (map Close df) in
          let current_open := iloc_last (map Open df) in
          let current_low := iloc_last (map Low df) in
          let ema_check := fgt ema_21 ema_100 in
          let bullish_bar := fgt current_close current_open in
          let above_bb_upper := fgt current_close bb_upper in
          let is_valid := ema_check && bullish_bar && above_bb_upper in
          let bars_since_crossover :=
            if ema_check
            then crossover ema_21_series ema_100_series
            else None in
          (is_valid,
           Some {| ema_21 := ema_21; ema_100 := ema_100; bb_upper := bb_upper;
                   bb_middle := bb_middle; current_price := current_close;
                   current_open := current_open; low_price := current_low;
                   date := List.last (map Date df) [];
                   bars_since_crossover := bars_since_crossover;
                   ema_check := ema_check; bullish_bar := bullish_bar;
                   above_bb_upper := above_bb_upper |})
      end
  | _, _ => (false, None)
  end.

Definition validate_frame (df : list bar) : bool * option validation_values :=
  validate_frame_with calculate_bars_since_crossover df.

(** The three checks as the specification words them, on the most recent
    bar [b] of the frame: the exponential average of all the closes up to
    it (pandas' recurrence run over the closes, seeded with the first
    one), the band from the last twenty closes. *)
Definition ema_now (span : nat) (closes : list F) : F :=
  match closes with
  | [] => fnan
  | x :: xs => ewm_output (fold_left (ewm_step (ewm_alpha span)) xs (ewm_start x))
  end.






(** Bar [i] is the first bar above after a bar that was not: the 21-bar
    average crossed over the 100-bar one between bars [i - 1] and [i]. *)
Definition crossed_at (above : list bool) (i : nat) : bool :=
  (1 <=? i) && negb (nth (i - 1) above false) && nth i above false.

Definition validate_ema_criteria (market : market_oracle) (symbol : str)
    (st : state) : (bool * option validation_values) * state :=
  match download_historical_data market symbol st with
  | (None, st) => ((false, None), st)
  | (Some df, st) => (validate_frame df, st)
  end.

(** *** The cycle *)

Definition process_next_ticker (market : market_oracle) (st : state) : state :=
  match get_first_ticker_from_scanner st with
  | (None, st) => st
  | (Some ticker, st) =>
      match validate_ema_criteria market ticker st with
      | ((true, ema_values), st) =>
          let low_price :=
            match ema_values with
            | Some v => low_price v
            | None => float_of_nat 0
            end in
          _remove_ticker_from_scanner ticker (add_to_watchlist ticker low_price st)
      | ((false, _), st) => _remove_ticker_from_scanner ticker st
      end
  end.

(** What one pass of the loop of [run] finds outside the program: the
    content of [openpositions.txt] (written by the account refresh of
    main.py) and the text of each unseen alert mail. *)
Record cycle_input := {
  positions_snapshot : option (list str);
  mails : list str
}.

Definition reload_positions (snapshot : option (list str)) (st : state) : state :=
  let st := {| open_positions := open_positions st; scanner := scanner st;
               watchlist := watchlist st; openpositions := snapshot;
               trace := trace st |} in
  match snapshot with
  | Some lines => set_open_positions (_load_symbols lines) st
  | None => st
  end.

Definition check_email_for_tickers `{SetOrder} (contents : list str) (st : state) : state :=
  fold_left
    (fun st full_content =>
       let tickers := extract_ticker_symbols full_content in
       if nonempty tickers then update_scanner_file tickers st else st)
    contents st.

Definition cycle `{SetOrder} (market : market_oracle) (input : cycle_input)
    (st : state) : state :=
  let st := reload_positions (positions_snapshot input) st in
  let st := check_email_for_tickers (mails input) st in
  process_next_ticker market st.

Definition run_cycles `{SetOrder} (market : market_oracle)
    (inputs : list cycle_input) (st : state) : state :=
  fold_left (fun st input => cycle market input st) inputs st.

(** The open positions a cycle works with, given those of the cycle
    before: the symbols of the snapshot if the file is there. *)
Definition held_after (input : cycle_input) (held : gset str) : gset str :=
  match positions_snapshot input with
  | Some lines => _load_symbols lines
  | None => held
  end.

(** No symbol enters the open positions while it is on the watchlist: a
    symbol among the open positions a cycle loads that was not among those
    of the cycle before is not on the watchlist the cycle finds. *)
Fixpoint none_listed_becomes_held `{SetOrder} (market : market_oracle)
    (inputs : list cycle_input) (st : state) : Prop :=
  match inputs with
  | [] => True
  | input :: inputs' =>
      (forall s, s ∈ held_after input (open_positions st) -> s ∉ open_positions st ->
                 s ∉ _get_watchlist_symbols st) /\
      none_listed_becomes_held market inputs' (cycle market input st)
  end.

(** The scanner file after the lines of the tickers [ts] were removed from
    [cur], one ticker after the other, and the writes these removals make. *)
Definition remaining (ts : list str) (cur : list str) : list str :=
  fold_left (fun cur t => filter (fun line => keeps t line) cur) ts cur.

Fixpoint removal_events (ts : list str) (cur : list str) : list event :=
  match ts with
  | [] => []
  | t :: ts' =>
      let cur' := filter (fun line => keeps t line) cur in
      ScannerWritten cur' :: removal_events ts' cur'
  end.

(** [st'] differs from [st] at most in the scanner file and by the events
    [evs] added to the trace. *)
Definition scanner_step (st st' : state) (evs : list event) : Prop :=
  open_positions st' = open_positions st /\ watchlist st' = watchlist st /\
  openpositions st' = openpositions st /\ trace st' = trace st ++ evs.

(** [st'] differs from [st] only by the events [evs] added to the trace. *)
Definition silent_step (st st' : state) (evs : list event) : Prop :=
  scanner st' = scanner st /\ scanner_step st st' evs.

Definition is_queue_write (e : event) : bool :=
  match e with
  | ScannerWritten _ | WatchlistAppended _ => true
  | Fetched _ => false
  end.

Definition is_scanner_write (e : event) : bool :=
  match e with ScannerWritten _ => true | _ => false end.

(** Every write to a queue file comes after every price download. *)
Definition writes_follow_fetches (events : list event) : Prop :=
  forall i j e f,
    events !! i = Some e -> events !! j = Some f ->
    is_queue_write e = true -> is_fetch f = true -> j < i.

(** *** Further operations and views of the state *)

Definition _count_scanner_tickers (st : state) : nat :=
  match scanner st with
  | None => 0
  | Some lines => length (filter (fun line => nonempty (strip line)) lines)
  end.

(** The symbols a queue file holds, in file order: the first token of each
    non-blank line, in upper case. *)
Definition symbol_list (lines : list str) : list str :=
  map (fun line => upper (first (split line)))
      (filter (fun line => nonempty (strip line) && nonempty (split line)) lines).

Definition scanner_symbols (st : state) : gset str :=
  match scanner st with
  | None => ∅
  | Some lines => _load_symbols lines
  end.

Definition watchlist_lines (st : state) : list str := default [] (watchlist st).

(** What a download returns for one answer of the price service, and
    whether that answer is an exception. *)
Definition frame_or_none (answer : fetched) : option (list bar) :=
  match answer with
  | Frame df => if nonempty df then Some df else None
  | SocketTimeout | OtherError => None
  end.

Definition raised (answer : fetched) : bool :=
  match answer with Frame _ => false | _ => true end.

(** [n] passes of [process_next_ticker] in a row. *)
Fixpoint passes (n : nat) (market : market_oracle) (st : state) : state :=
  match n with
  | 0 => st
  | S n' => passes n' market (process_next_ticker market st)
  end.

End WithFloat.

End Screener.

(** ** main.py: the order sweep *)

Module Main.

Section WithFloat.
Context {F : Type} `{FloatOps F}.

Record order_leg := {
  instruction : str;
  quantity : nat;
  symbol : str;
  assetType : str
}.

Record order := {
  orderType : str;
  session : str;
  duration : str;
  orderStrategyType : str;
  price : str;
  orderLegCollection : list order_leg
}.

Definition create_limit_order (symbol : str) (limit_price : F) (quantity : nat) : order :=
  {| orderType := txt "LIMIT";
     session := txt "NORMAL";
     duration := txt "GOOD_TILL_CANCEL";
     orderStrategyType := txt "SINGLE";
     price := float_repr limit_price;
     orderLegCollection :=
       [ {| instruction := txt "BUY"; quantity := quantity;
            symbol := symbol; assetType := txt "EQUITY" |} ] |}.

(** What [client.order_place] does: it answers with a status code and
    possibly a [Location] header, or the call (or the reading of its
    answer) raises, either a [ValueError] (which the sweep catches with
    the handler it has for a price that [float] cannot read) or another
    exception. *)
Inductive response :=
| Response (status_code : nat) (location : option str)
| RaisedValueError
| Raised.

(** The brokerage collaborator: the answer to the [n]-th order overall. *)
Definition broker_oracle := nat -> order -> response.

Inductive outcome :=
| Placed (order_id : str)
| Rejected (status_code : nat)
| MalformedPrice
| TransportError.

(** The watchlist file, the attempts made (entry and outcome, oldest
    first), the orders submitted to the broker, and the seconds slept. *)
Record sweep := {
  watchlist_file : option (list str);
  attempts : list (str * outcome);
  orders : list order;
  slept : nat
}.

Definition attempted (line : str) (o : outcome) (pause : nat)
    (submitted : list order) (sw : sweep) : sweep :=
  {| watchlist_file := watchlist_file sw;
     attempts := attempts sw ++ [(line, o)];
     orders := orders sw ++ submitted;
     slept := slept sw + pause |}.

(** The body of the loop over the lines of the watchlist. *)
Definition process_line (broker : broker_oracle) (sw : sweep) (line : str) : sweep :=
  let line := strip line in
  if negb (Screener.nonempty line) then sw
  else
    let parts := split line in
    if length parts <? 2 then sw
    else
      let symbol := upper (nth 0 parts []) in
      match float_of_str (nth 1 parts []) with
      | None => attempted line MalformedPrice 10 [] sw
      | Some limit_price =>
          let order_payload := create_limit_order symbol limit_price 1 in
          match broker (length (orders sw)) order_payload with
          | Response status_code location =>
              if bool_decide (status_code ∈ [200; 201])
              then attempted line (Placed (default (txt "N/A") location)) 3
                     [order_payload] sw
              else attempted line (Rejected status_code) 10 [order_payload] sw
          | RaisedValueError => attempted line MalformedPrice 10 [order_payload] sw
          | Raised => attempted line TransportError 10 [order_payload] sw
          end
      end.

Definition process_watchlist_orders (broker : broker_oracle)
    (file : option (list str)) : sweep :=
  let start := {| watchlist_file := file; attempts := []; orders := []; slept := 0 |} in
  match file with
  | None => start
  | Some [] => start
  | Some lines =>
      let sw := fold_left (process_line broker) lines start in
      {| watchlist_file := Some []; attempts := attempts sw;
         orders := orders sw; slept := slept sw |}
  end.

(** The entries of a watchlist file: its lines of at least two tokens
    ([SYMBOL LIMITPRICE]). *)
Definition entries (lines : list str) : list str :=
  filter (fun line => 2 <=? length (split line)) lines.

(** *** The watchlist status line *)

(** [sep.join(items)] *)
Definition join (sep : str) (items : list str) : str :=
  match items with
  | [] => []
  | item :: rest => item ++ concat (map (fun x => sep ++ x) rest)
  end.

Definition empty_message : str := txt "Watchlist is empty.".

(** What [display_watchlist_status] prints. *)
Definition display_watchlist_status (file : option (list str)) : str :=
  match file with
  | None => empty_message
  | Some [] => empty_message
  | Some raw =>
      let lines := filter (fun line => Screener.nonempty line) (map strip raw) in
      if negb (Screener.nonempty lines) then empty_message
      else
        let items :=
          map (fun parts => upper (nth 0 parts []))
              (filter (fun parts => 2 <=? length parts) (map split lines)) in
        if Screener.nonempty items then txt "Watchlist: " ++ join (txt ", ") items
        else empty_message
  end.

(** The order the sweep submits for an entry, if its price can be read. *)
Definition order_of_entry (line : str) : option order :=
  match float_of_str (nth 1 (split line) []) with
  | Some limit_price =>
      Some (create_limit_order (upper (nth 0 (split line) [])) limit_price 1)
  | None => None
  end.

(** The outcome the sweep reports for an answer of the broker. *)
Definition outcome_of (r : response) : outcome :=
  match r with
  | Response status_code location =>
      if bool_decide (status_code ∈ [200; 201])
      then Placed (default (txt "N/A") location)
      else Rejected status_code
  | RaisedValueError => MalformedPrice
  | Raised => TransportError
  end.

(** The attempts the specification expects for a list of entries, when [k]
    orders went to the broker before: one attempt per entry, in order; an
    entry whose price cannot be read is reported without the broker being
    called; any other entry is submitted once, as the next order, and its
    outcome is the one of the broker's answer. *)
Fixpoint expected_attempts (broker : broker_oracle) (k : nat) (es : list str)
    : list (str * outcome) :=
  match es with
  | [] => []
  | e :: rest =>
      match order_of_entry e with
      | None => (e, MalformedPrice) :: expected_attempts broker k rest
      | Some o => (e, outcome_of (broker k o)) :: expected_attempts broker (S k) rest
      end
  end.

Definition is_placed (o : outcome) : bool :=
  match o with Placed _ => true | _ => false end.

(** The pause after an attempt, in seconds. *)
Definition pause_after (o : outcome) : nat := if is_placed o then 3 else 10.

(** The seconds slept over a list of attempts. *)
Definition total_pause (attempts : list (str * outcome)) : nat :=
  sum_list_with (fun a => pause_after (snd a)) attempts.

End WithFloat.

End Main.

(** ** Instances to run the model on

    Exact rational arithmetic with a NaN, a square root to six decimal
    places, and a set that is iterated in insertion order. *)

Module Concrete.

Inductive rat_float :=
| Num (q : Q)
| NaN.

Definition lift2 (f : Q -> Q -> Q) (x y : rat_float) : rat_float :=
  match x, y with
  | Num a, Num b => Num (Qred (f a b))
  | _, _ => NaN
  end.

Definition rat_div (x y : rat_float) : rat_float :=
  match x, y with
  | Num a, Num b => if Qeq_bool b 0 then NaN else Num (Qred (Qdiv a b))
  | _, _ => NaN
  end.

Definition rat_sqrt (x : rat_float) : rat_float :=
  match x with
  | Num a =>
      if Qle_bool 0 a
      then Num (Qred (Qmake (Z.sqrt (Qnum a * 1000000000000 / Zpos (Qden a))) 1000000))
      else NaN
  | NaN => NaN
  end.

Definition rat_gt (x y : rat_float) : bool :=
  match x, y with
  | Num a, Num b => negb (Qle_bool a b)
  | _, _ => false
  end.

Definition rat_eq (x y : rat_float) : bool :=
  match x, y with
  | Num a, Num b => Qeq_bool a b
  | _, _ => false
  end.

Definition digits (z : Z) : str :=
  txt (NilZero.string_of_uint (N.to_uint (Z.to_N z))).

Definition two_digits (z : Z) : str :=
  if (z <? 10)%Z then txt "0" ++ digits z else digits z.

(** Two decimals, halves rounded up. *)
Definition rat_fmt2 (x : rat_float) : str :=
  match x with
  | Num a =>
      let cents := ((2 * 100 * Z.abs (Qnum a) + Zpos (Qden a)) / (2 * Zpos (Qden a)))%Z in
      (if (Qnum a <? 0)%Z then txt "-" else []) ++
      digits (cents / 100) ++ txt "." ++ two_digits (cents mod 100)
  | NaN => txt "nan"
  end.

Definition digit_value (c : ascii) : option Z :=
  if is_digit c then Some (Z.of_nat (code c - 48)) else None.

Fixpoint read_digits (acc : Z) (s : str) : option Z :=
  match s with
  | [] => Some acc
  | c :: s' =>
      match digit_value c with
      | Some d => read_digits (10 * acc + d) s'
      | None => None
      end
  end.

(** Plain decimals only: [12], [12.5], [0.07]. *)
Definition rat_of_str (s : str) : option rat_float :=
  let whole := take_while is_digit s in
  let rest := drop_while is_digit s in
  match whole, rest with
  | [], _ => None
  | _, [] => Num <$> (inject_Z <$> read_digits 0 whole)
  | _, c :: frac =>
      if bool_decide (c = "."%char) then
        match read_digits 0 (whole ++ frac) with
        | Some z => Some (Num (Qred (Qmake z (Z.to_pos (10 ^ Z.of_nat (length frac))))))
        | None => None
        end
      else None
  end.

#[export] Instance rat_float_ops : FloatOps rat_float := {|
  fadd := lift2 Qplus;
  fsub := lift2 Qminus;
  fmul := lift2 Qmult;
  fdiv := rat_div;
  fsqrt := rat_sqrt;
  float_of_nat n := Num (inject_Z (Z.of_nat n));
  fnan := NaN;
  fgt := rat_gt;
  feq := rat_eq;
  fmt2 := rat_fmt2;
  float_repr := rat_fmt2;
  float_of_str := rat_of_str
|}.

#[export] Program Instance insertion_order : Screener.SetOrder := {|
  Screener.union_iter existing added := remove_dups (existing ++ added)
|}.
Next Obligation. intros. apply NoDup_remove_dups. Qed.
Next Obligation.
  intros. rewrite elem_of_remove_dups, elem_of_app. reflexivity.
Qed.

(** Another order Python allows: the element inserted last comes first. *)
Program Definition newest_first : Screener.SetOrder := {|
  Screener.union_iter existing added := reverse (remove_dups (existing ++ added))
|}.
Next Obligation. intros. rewrite reverse_Permutation. apply NoDup_remove_dups. Qed.
Next Obligation.
  intros. rewrite elem_of_reverse, elem_of_remove_dups, elem_of_app. reflexivity.
Qed.

Definition price (n : nat) : rat_float := Num (inject_Z (Z.of_nat n)).

Definition flat_bar (p : nat) : Screener.bar :=
  {| Screener.Date := txt "2025-01-02"; Screener.Open := price p;
     Screener.High := price p; Screener.Low := price p;
     Screener.Close := price p |}.

(** Ninety-nine flat days at 1, then a day that opens at 1, dips to its
    low and closes at 100. *)
Definition breakout (low : nat) : list Screener.bar :=
  repeat (flat_bar 1) 99 ++
  [ {| Screener.Date := txt "2025-05-27"; Screener.Open := price 1;
       Screener.High := price 100; Screener.Low := price low;
       Screener.Close := price 100 |} ].

(** The same history with the close of the fifty-first day missing. *)
Definition breakout_with_gap : list Screener.bar :=
  repeat (flat_bar 1) 50 ++
  [ {| Screener.Date := txt "2025-03-14"; Screener.Open := price 1;
       Screener.High := price 1; Screener.Low := price 1; Screener.Close := NaN |} ] ++
  repeat (flat_bar 1) 48 ++
  [ {| Screener.Date := txt "2025-05-27"; Screener.Open := price 1;
       Screener.High := price 100; Screener.Low := price 1;
       Screener.Close := price 100 |} ].

(** A state with one ticker in the scanner file, nothing held and an
    empty watchlist. *)
Definition one_queued (ticker : string) : Screener.state :=
  {| Screener.open_positions := ∅; Screener.scanner := Some [txt ticker];
     Screener.watchlist := Some []; Screener.openpositions := Some [];
     Screener.trace := [] |}.

End Concrete.

Import Concrete.

(** * Properties of the text operations *)

Section TextFacts.

Example split_line : split (txt "  aapl 12.50 ") = [txt "aapl"; txt "12.50"].
Proof. reflexivity. Qed.

Example strip_line : strip (txt "  aapl 12.50 ") = txt "aapl 12.50".
Proof. reflexivity. Qed.

Example findall_alert :
  findall_ticker_pattern (txt "BBAuto: AAPL, MSFTX1 TOOLONG x_Y GO") = [txt "AAPL"; txt "GO"].
Proof. reflexivity. Qed.

Lemma tokens_cons sep c s :
  tokens sep (c :: s) =
    if sep c then tokens sep s
    else push_char c (starts_token sep s) (tokens sep s).
Proof. reflexivity. Qed.

Lemma tokens_run sep c s :
  sep c = false ->
  tokens sep (c :: s) =
    (c :: take_while (fun x => negb (sep x)) s)
      :: tokens sep (drop_while (fun x => negb (sep x)) s).
Proof.
  revert c. induction s as [|d s IH]; intros c Hc.
  - simpl. rewrite Hc. reflexivity.
  - rewrite tokens_cons, Hc. cbn [starts_token take_while drop_while].
    destruct (sep d) eqn:Hd; cbn [negb push_char].
    + rewrite tokens_cons, Hd. destruct (tokens sep s); reflexivity.
    + rewrite (IH d Hd). reflexivity.
Qed.

Lemma tokens_drop_while sep s : tokens sep (drop_while sep s) = tokens sep s.
Proof.
  induction s as [|c s IH]; [reflexivity|].
  cbn [drop_while]. destruct (sep c) eqn:Hc.
  - rewrite IH. cbn [tokens]. rewrite Hc. reflexivity.
  - reflexivity.
Qed.

Lemma take_while_app_stop p t c r :
  forallb p t = true -> p c = false -> take_while p (t ++ c :: r) = t.
Proof.
  induction t as [|a t IH]; cbn; intros Ht Hc.
  - rewrite Hc. reflexivity.
  - apply andb_true_iff in Ht as [-> Ht]. rewrite IH; auto.
Qed.

Lemma drop_while_app_stop p t c r :
  forallb p t = true -> p c = false -> drop_while p (t ++ c :: r) = c :: r.
Proof.
  induction t as [|a t IH]; cbn; intros Ht Hc.
  - rewrite Hc. reflexivity.
  - apply andb_true_iff in Ht as [-> Ht]. rewrite IH; auto.
Qed.

Lemma take_while_all p t : forallb p t = true -> take_while p t = t.
Proof.
  induction t as [|a t IH]; cbn; [reflexivity|].
  intros [-> Ht]%andb_true_iff. rewrite IH; auto.
Qed.

Lemma drop_while_all p t : forallb p t = true -> drop_while p t = [].
Proof.
  induction t as [|a t IH]; cbn; [reflexivity|].
  intros [-> Ht]%andb_true_iff. auto.
Qed.

Lemma take_drop_while p s : take_while p s ++ drop_while p s = s.
Proof.
  induction s as [|c s IH]; cbn; [reflexivity|].
  destruct (p c); cbn; [rewrite IH|]; reflexivity.
Qed.

Lemma take_while_forallb p s : forallb p (take_while p s) = true.
Proof.
  induction s as [|c s IH]; cbn; [reflexivity|].
  destruct (p c) eqn:Hc; cbn; [rewrite Hc, IH|]; reflexivity.
Qed.

Lemma drop_while_head p s c r : drop_while p s = c :: r -> p c = false.
Proof.
  induction s as [|a s IH]; cbn; [discriminate|].
  destruct (p a) eqn:Ha; [auto|]. intros [= <- <-]. exact Ha.
Qed.

(** A token followed by a separator is the first token of the text. *)
Lemma tokens_prefix sep t c r :
  t <> [] -> forallb (fun x => negb (sep x)) t = true -> sep c = true ->
  tokens sep (t ++ c :: r) = t :: tokens sep r.
Proof.
  destruct t as [|a t]; [congruence|]. intros _ Ht Hc.
  cbn [forallb] in Ht. apply andb_true_iff in Ht as [Ha Ht].
  apply negb_true_iff in Ha.
  change ((a :: t) ++ c :: r) with (a :: (t ++ c :: r)).
  rewrite tokens_run by exact Ha.
  rewrite take_while_app_stop, drop_while_app_stop; auto;
    try (rewrite Hc; reflexivity).
  cbn [tokens]. rewrite Hc. reflexivity.
Qed.

Lemma tokens_all_sep sep s : forallb sep s = true -> tokens sep s = [].
Proof.
  induction s as [|c s IH]; cbn; [reflexivity|].
  intros [-> Hs]%andb_true_iff. auto.
Qed.

(** Separators at the end of the text add no token. *)
Lemma tokens_app_sep sep s t :
  forallb sep t = true -> tokens sep (s ++ t) = tokens sep s.
Proof.
  intros Ht. induction s as [|c s IH].
  - cbn. apply tokens_all_sep, Ht.
  - cbn [app tokens]. rewrite IH.
    destruct (sep c); [reflexivity|]. f_equal.
    destruct s as [|d s]; cbn; [|reflexivity].
    destruct t as [|e t]; cbn; [reflexivity|].
    cbn in Ht. apply andb_true_iff in Ht as [-> _]. reflexivity.
Qed.

(** Every token is non-empty and free of separators. *)
Lemma tokens_wf sep s :
  Forall (fun t => t <> [] /\ forallb (fun x => negb (sep x)) t = true) (tokens sep s).
Proof.
  remember (length s) as n eqn:Hn. revert s Hn.
  induction n as [n IH] using lt_wf_ind. intros s ->.
  destruct s as [|c s]; [constructor|].
  destruct (sep c) eqn:Hc.
  - cbn [tokens]. rewrite Hc. apply (IH (length s)); cbn; auto.
  - rewrite tokens_run by exact Hc. constructor.
    + split; [discriminate|]. cbn. rewrite Hc. cbn. apply take_while_forallb.
    + apply (IH (length (drop_while (fun x => negb (sep x)) s))); [|reflexivity].
      cbn. pose proof (take_drop_while (fun x => negb (sep x)) s) as E.
      apply (f_equal (@length ascii)) in E. rewrite length_app in E. lia.
Qed.

Lemma tokens_nil_iff sep s : tokens sep s = [] <-> forallb sep s = true.
Proof.
  split; [|apply tokens_all_sep].
  induction s as [|c s IH]; [reflexivity|].
  destruct (sep c) eqn:Hc.
  - cbn [tokens forallb]. rewrite Hc. exact IH.
  - rewrite tokens_run by exact Hc. discriminate.
Qed.

Lemma forallb_rev {A} (p : A -> bool) (l : list A) : forallb p (rev l) = forallb p l.
Proof.
  induction l as [|a l IH]; [reflexivity|].
  cbn. rewrite forallb_app, IH. cbn. rewrite andb_true_r. apply andb_comm.
Qed.

Lemma tokens_rstrip sep s :
  tokens sep (rev (drop_while sep (rev s))) = tokens sep s.
Proof.
  pose proof (take_drop_while sep (rev s)) as E.
  apply (f_equal (@rev ascii)) in E. rewrite rev_app_distr, rev_involutive in E.
  rewrite <- E at 2. symmetry. apply tokens_app_sep.
  rewrite forallb_rev. apply take_while_forallb.
Qed.

Lemma split_strip s : split (strip s) = split s.
Proof.
  unfold split, strip. rewrite tokens_rstrip. apply tokens_drop_while.
Qed.

Lemma strip_nil_iff s : strip s = [] <-> split s = [].
Proof.
  split; intros E.
  - rewrite <- split_strip, E. reflexivity.
  - apply tokens_nil_iff in E. unfold strip.
    rewrite (drop_while_all _ _ E). reflexivity.
Qed.

Lemma drop_while_id p s : starts_token p s = true -> drop_while p s = s.
Proof.
  destruct s as [|c s]; cbn; [reflexivity|].
  intros ->%negb_true_iff. reflexivity.
Qed.

Lemma strip_trimmed s : trimmed s -> strip s = s.
Proof.
  intros [->|[Hl Hr]]; [reflexivity|]. unfold strip.
  rewrite (drop_while_id _ _ Hl), (drop_while_id _ _ Hr). apply rev_involutive.
Qed.

Lemma starts_token_app sep s t :
  s <> [] -> starts_token sep (s ++ t) = starts_token sep s.
Proof. destruct s; [congruence|reflexivity]. Qed.

Lemma trimmed_strip s : trimmed (strip s).
Proof.
  unfold strip.
  destruct (drop_while is_space (rev (drop_while is_space s))) as [|c b] eqn:Eb.
  - left. reflexivity.
  - right. rewrite rev_involutive. split.
    + pose proof (take_drop_while is_space (rev (drop_while is_space s))) as E.
      rewrite Eb in E. apply (f_equal (@rev ascii)) in E.
      rewrite rev_app_distr, rev_involutive in E.
      destruct (drop_while is_space s) as [|a r] eqn:Ea.
      { destruct (rev (c :: b)) eqn:Er; [|discriminate].
        apply (f_equal (@length ascii)) in Er. rewrite length_rev in Er. discriminate. }
      apply drop_while_head in Ea.
      assert (Hne : rev (c :: b) <> []).
      { intros Er. apply (f_equal (@length ascii)) in Er.
        rewrite length_rev in Er. discriminate. }
      rewrite <- (starts_token_app _ _ (rev (take_while is_space (rev (a :: r)))) Hne).
      rewrite E. cbn. rewrite Ea. reflexivity.
    + cbn. apply drop_while_head in Eb. rewrite Eb. reflexivity.
Qed.

Lemma strip_idem s : strip (strip s) = strip s.
Proof. apply strip_trimmed, trimmed_strip. Qed.

Lemma trimmed_no_space s :
  forallb (fun x => negb (is_space x)) s = true -> trimmed s.
Proof.
  destruct s as [|c s]; [left; reflexivity|]. intros Hs. right. split.
  - cbn in *. apply andb_true_iff in Hs as [-> _]. reflexivity.
  - rewrite <- forallb_rev in Hs.
    destruct (rev (c :: s)) as [|d r] eqn:Er.
    + apply (f_equal (@length ascii)) in Er. rewrite length_rev in Er. discriminate.
    + cbn in *. apply andb_true_iff in Hs as [-> _]. reflexivity.
Qed.

(** *** Characters *)

Ltac all_chars c := destruct c as [[] [] [] [] [] [] [] []]; vm_compute; try reflexivity; try discriminate.

Lemma is_space_upper_char c : is_space (upper_char c) = is_space c.
Proof. all_chars c. Qed.

Lemma upper_char_idem c : upper_char (upper_char c) = upper_char c.
Proof. all_chars c. Qed.

Lemma is_upper_fixed c : is_upper c = true -> upper_char c = c.
Proof. all_chars c. Qed.

Lemma is_upper_not_space c : is_upper c = true -> is_space c = false.
Proof. all_chars c. Qed.

Lemma is_upper_word c : is_upper c = true -> is_word c = true.
Proof. all_chars c. Qed.

Lemma upper_idem s : upper (upper s) = upper s.
Proof.
  unfold upper. rewrite map_map. apply map_ext. intros c. apply upper_char_idem.
Qed.

Lemma upper_no_space s :
  forallb (fun x => negb (is_space x)) (upper s) = forallb (fun x => negb (is_space x)) s.
Proof.
  induction s as [|c s IH]; [reflexivity|].
  cbn. rewrite is_space_upper_char. unfold upper in IH. rewrite IH. reflexivity.
Qed.

Lemma upper_nil s : upper s = [] <-> s = [].
Proof. destruct s; cbn; split; intros; congruence. Qed.

Lemma first_token_clean s :
  split s <> [] -> clean (upper (Screener.first (split s))).
Proof.
  intros Hne. pose proof (tokens_wf is_space s) as Hwf. unfold split in *.
  destruct (tokens is_space s) as [|t ts]; [congruence|].
  apply Forall_cons in Hwf as [[Ht Hs] _]. cbn. repeat split.
  - rewrite upper_nil. exact Ht.
  - rewrite upper_no_space. exact Hs.
  - apply upper_idem.
Qed.

(** The first token of a line that starts with a clean word and a space. *)
Lemma split_clean_line t r :
  t <> [] -> forallb (fun x => negb (is_space x)) t = true ->
  split (t ++ txt " " ++ r) = t :: split r.
Proof. intros Ht Hs. apply (tokens_prefix is_space t " "%char r); auto. Qed.

End TextFacts.

(** * The ticker pattern *)

Section FindallFacts.

Lemma take_while_ext p q s : (forall c, p c = q c) -> take_while p s = take_while q s.
Proof. intros E. induction s as [|c s IH]; cbn; [|rewrite E, IH]; reflexivity. Qed.

Lemma drop_while_ext p q s : (forall c, p c = q c) -> drop_while p s = drop_while q s.
Proof. intros E. induction s as [|c s IH]; cbn; [|rewrite E, IH]; reflexivity. Qed.

Lemma word_runs_word c s :
  is_word c = true ->
  word_runs (c :: s) = (c :: take_while is_word s) :: word_runs (drop_while is_word s).
Proof.
  intros Hc. unfold word_runs. rewrite tokens_run by (unfold non_word; rewrite Hc; reflexivity).
  rewrite (take_while_ext _ is_word), (drop_while_ext _ is_word);
    [reflexivity | |]; intros x; unfold non_word; apply negb_involutive.
Qed.

Lemma word_runs_non_word c s : is_word c = false -> word_runs (c :: s) = word_runs s.
Proof. intros Hc. unfold word_runs. rewrite tokens_cons. unfold non_word. rewrite Hc. reflexivity. Qed.

Lemma try_len_not_upper k c s : is_upper c = false -> try_len (S k) (c :: s) = None.
Proof. intros Hc. unfold try_len. cbn. rewrite Hc. rewrite andb_false_r. reflexivity. Qed.

Lemma try_greedy_not_upper k c s : is_upper c = false -> try_greedy k (c :: s) = None.
Proof.
  intros Hc. induction k as [|k IH]; [reflexivity|].
  cbn [try_greedy]. rewrite try_len_not_upper by exact Hc. exact IH.
Qed.

Lemma non_word_not_upper c : is_word c = false -> is_upper c = false.
Proof. destruct (is_upper c) eqn:E; [|reflexivity]. rewrite (is_upper_word _ E). discriminate. Qed.

Lemma last_word_before (w : str) :
  w <> [] -> forallb is_word w = true -> word_before (last w) = true.
Proof.
  intros Hne Hw. destruct (last w) as [c|] eqn:E.
  - cbn. apply last_Some in E as [l' ->]. rewrite forallb_app in Hw.
    apply andb_true_iff in Hw as [_ Hw]. cbn in Hw. rewrite andb_true_r in Hw. exact Hw.
  - apply last_None in E. congruence.
Qed.

Lemma forallb_upper_word w : forallb is_upper w = true -> forallb is_word w = true.
Proof.
  induction w as [|c w IH]; cbn; [reflexivity|].
  intros [Hc Hw]%andb_true_iff. rewrite (is_upper_word _ Hc), IH; auto.
Qed.

(** One attempt of [[A-Z]{k}\b] at the start of a run [w] of word
    characters that ends the text or is followed by a non-word character:
    it succeeds only for [k = length w], and only on capitals. *)
Lemma try_len_run k w r :
  w <> [] -> forallb is_word w = true ->
  starts_token non_word r = false ->
  try_len (S k) (w ++ r) =
    if (S k =? length w) && forallb is_upper w then Some w else None.
Proof.
  intros Hne Hw Hr. unfold try_len.
  destruct (lt_eq_lt_dec (S k) (length w)) as [[Hlt|Heq]|Hgt].
  - replace (S k =? length w) with false by (symmetry; apply Nat.eqb_neq; lia).
    cbn [andb]. rewrite take_app_le, drop_app_le by lia.
    destruct (forallb is_upper (take (S k) w)) eqn:Hup;
      [|rewrite andb_false_r; reflexivity].
    assert (Hb : boundary (last (take (S k) w)) (drop (S k) w ++ r) = false).
    { unfold boundary. rewrite last_word_before.
      - destruct (drop (S k) w) as [|d dr] eqn:Ed.
        + apply (f_equal (@length ascii)) in Ed. rewrite length_drop in Ed. cbn [length] in Ed. lia.
        + cbn. rewrite <- (take_drop (S k) w), Ed, forallb_app in Hw.
          apply andb_true_iff in Hw as [_ Hd]. cbn in Hd.
          apply andb_true_iff in Hd as [-> _]. reflexivity.
      - intros E. apply (f_equal (@length ascii)) in E. rewrite length_take in E. cbn [length] in E. lia.
      - apply forallb_upper_word, Hup. }
    rewrite Hb, andb_false_r. reflexivity.
  - rewrite Heq, Nat.eqb_refl. cbn [andb].
    rewrite take_app_length, drop_app_length, Nat.eqb_refl. cbn [andb].
    destruct (forallb is_upper w) eqn:Hup; [|reflexivity].
    unfold boundary. rewrite last_word_before by auto.
    destruct r as [|d r]; [reflexivity|]. cbn in Hr.
    apply negb_false_iff in Hr. unfold non_word in Hr.
    apply negb_true_iff in Hr. rewrite Hr. reflexivity.
  - replace (S k =? length w) with false by (symmetry; apply Nat.eqb_neq; lia).
    cbn [andb].
    destruct (length (take (S k) (w ++ r)) =? S k) eqn:Hlen; [|reflexivity].
    cbn [andb]. apply Nat.eqb_eq in Hlen.
    rewrite take_app_ge by lia. rewrite forallb_app.
    destruct r as [|d r].
    { rewrite length_take, length_app in Hlen. cbn [length] in Hlen. lia. }
    destruct (S k - length w) as [|j] eqn:Ej; [lia|]. cbn [take forallb].
    cbn in Hr. apply negb_false_iff in Hr. unfold non_word in Hr.
    apply negb_true_iff in Hr. rewrite (non_word_not_upper _ Hr).
    cbn [andb]. rewrite andb_false_r. reflexivity.
Qed.

Lemma try_greedy_run k w r :
  w <> [] -> forallb is_word w = true ->
  starts_token non_word r = false ->
  try_greedy k (w ++ r) =
    if (length w <=? k) && forallb is_upper w then Some w else None.
Proof.
  intros Hne Hw Hr. induction k as [|k IH].
  - cbn. destruct w; [congruence|reflexivity].
  - cbn [try_greedy]. rewrite try_len_run by auto. rewrite IH.
    destruct (forallb is_upper w); rewrite ?andb_true_r, ?andb_false_r; [|reflexivity].
    destruct (S k =? length w) eqn:E1, (length w <=? k) eqn:E2, (length w <=? S k) eqn:E3;
      try reflexivity;
      repeat match goal with
             | H : (_ =? _) = true |- _ => apply Nat.eqb_eq in H
             | H : (_ =? _) = false |- _ => apply Nat.eqb_neq in H
             | H : (_ <=? _) = true |- _ => apply Nat.leb_le in H
             | H : (_ <=? _) = false |- _ => apply Nat.leb_gt in H
             end; lia.
Qed.

Lemma drop_while_idem p s : drop_while p (drop_while p s) = drop_while p s.
Proof.
  induction s as [|c s IH]; [reflexivity|].
  cbn. destruct (p c) eqn:Hc; [exact IH|]. cbn. rewrite Hc. reflexivity.
Qed.

Lemma starts_token_drop_while s : starts_token non_word (drop_while is_word s) = false.
Proof.
  destruct (drop_while is_word s) as [|c r] eqn:E; [reflexivity|].
  apply drop_while_head in E. cbn. unfold non_word. rewrite E. reflexivity.
Qed.

Lemma match_at_run prev c s :
  word_before prev = false -> is_word c = true ->
  match_at prev (c :: s) =
    if is_symbol (c :: take_while is_word s) then Some (c :: take_while is_word s) else None.
Proof.
  intros Hp Hc. unfold match_at, boundary. rewrite Hp, Hc. cbn [xorb].
  rewrite <- (take_drop_while is_word s) at 1.
  change (c :: take_while is_word s ++ drop_while is_word s)
    with ((c :: take_while is_word s) ++ drop_while is_word s).
  rewrite try_greedy_run.
  - unfold is_symbol. cbn [length Nat.leb andb]. reflexivity.
  - discriminate.
  - cbn. rewrite Hc. apply take_while_forallb.
  - apply starts_token_drop_while.
Qed.

(** Passing over the rest of a match leaves the scan just after it, with a
    word character behind it. *)
Lemma findall_skip t r c :
  is_word c = true -> forallb is_word t = true ->
  exists p, word_before p = true /\
            findall_go (length t) (Some c) (t ++ r) = findall_go 0 p r.
Proof.
  revert c. induction t as [|a t IH]; intros c Hc Ht.
  - exists (Some c). auto.
  - cbn in Ht. apply andb_true_iff in Ht as [Ha Ht].
    destruct (IH a Ha Ht) as (p & Hp & E). exists p. split; [exact Hp|].
    cbn. exact E.
Qed.

Lemma findall_go_spec n : forall s prev,
  length s <= n ->
  findall_go 0 prev s =
    filter (fun t => is_symbol t)
           (word_runs (if word_before prev then drop_while is_word s else s)).
Proof.
  induction n as [|n IH]; intros s prev Hn.
  { destruct s; [|cbn in Hn; lia]. destruct (word_before prev); reflexivity. }
  destruct s as [|c rest]; [destruct (word_before prev); reflexivity|].
  cbn in Hn. assert (Hrest : length rest <= n) by lia.
  destruct (word_before prev) eqn:Hp, (is_word c) eqn:Hc.
  - (* inside a word *)
    cbn [findall_go drop_while]. rewrite Hc.
    unfold match_at, boundary. rewrite Hp, Hc. cbn [xorb].
    rewrite (IH rest (Some c) Hrest). cbn [word_before from_option]. rewrite Hc. reflexivity.
  - (* just after a word *)
    cbn [findall_go drop_while]. rewrite Hc.
    unfold match_at. rewrite try_greedy_not_upper by (apply non_word_not_upper, Hc).
    destruct (boundary prev (c :: rest));
      rewrite (IH rest (Some c) Hrest); cbn [word_before from_option]; rewrite Hc;
      rewrite word_runs_non_word by exact Hc; reflexivity.
  - (* at the start of a word *)
    cbn [findall_go]. rewrite match_at_run by auto.
    rewrite word_runs_word by exact Hc. rewrite filter_cons.
    destruct (is_symbol (c :: take_while is_word rest)) eqn:Hsym.
    + rewrite decide_True by exact I. f_equal.
      replace (length (c :: take_while is_word rest) - 1)
        with (length (take_while is_word rest)) by (cbn [length]; lia).
      destruct (findall_skip (take_while is_word rest) (drop_while is_word rest) c Hc
                  (take_while_forallb _ _)) as (p & Hp' & E).
      rewrite take_drop_while in E. rewrite E.
      rewrite IH.
      * rewrite Hp', drop_while_idem. reflexivity.
      * pose proof (take_drop_while is_word rest) as El.
        apply (f_equal (@length ascii)) in El. rewrite length_app in El. lia.
    + rewrite decide_False by (intros []).
      rewrite (IH rest (Some c) Hrest). cbn [word_before from_option]. rewrite Hc. reflexivity.
  - (* between words *)
    cbn [findall_go]. unfold match_at, boundary. rewrite Hp, Hc. cbn [xorb].
    rewrite (IH rest (Some c) Hrest). cbn [word_before from_option]. rewrite Hc.
    rewrite word_runs_non_word by exact Hc. reflexivity.
Qed.

(** [findall] with the ticker pattern returns the word runs that are one
    to five capitals, in text order, one per occurrence. *)
Lemma findall_ticker_pattern_spec text :
  findall_ticker_pattern text = filter (fun t => is_symbol t) (word_runs text).
Proof. unfold findall_ticker_pattern. rewrite (findall_go_spec (length text)); auto. Qed.

End FindallFacts.

(** * Extraction *)

Section Extraction.
Import Screener.

Lemma filter_andb {A} (p q : A -> bool) (l : list A) :
  filter (fun x => q x) (filter (fun x => p x) l) = filter (fun x => p x && q x) l.
Proof.
  induction l as [|a l IH]; [reflexivity|].
  rewrite !filter_cons. destruct (p a) eqn:Hp; cbn [andb].
  - rewrite decide_True by exact I. rewrite filter_cons.
    destruct (q a);
      [rewrite !decide_True by exact I | rewrite !decide_False by (intros [])];
      rewrite IH; reflexivity.
  - rewrite !decide_False by (intros []). exact IH.
Qed.

(** C6, as amended: without the marker the result is empty; with it the
    result lists the symbols among the word runs of the text that are not
    stop words, in text order and once per occurrence, so that its set of
    elements is the reference set. *)
Theorem extract_ticker_symbols_reference (text : str) :
  extract_ticker_symbols text =
    (if contains marker (lower text) then reference_symbols text else [])
  /\ list_to_set (extract_ticker_symbols text) = reference_extract text.
Proof.
  unfold extract_ticker_symbols, reference_extract, reference_symbols.
  destruct (contains marker (lower text)); cbn [negb].
  - rewrite findall_ticker_pattern_spec, filter_andb. split; reflexivity.
  - split; reflexivity.
Qed.

(** C6, as stated, fails: a symbol that occurs twice in the text is
    returned twice. *)
Lemma extract_ticker_symbols_repeats :
  contains marker (lower (txt "BBAuto alert: AAPL AAPL")) = true /\
  extract_ticker_symbols (txt "BBAuto alert: AAPL AAPL") = [txt "AAPL"; txt "AAPL"] /\
  ~ NoDup (extract_ticker_symbols (txt "BBAuto alert: AAPL AAPL")).
Proof.
  split; [reflexivity|]. split; [reflexivity|].
  change (extract_ticker_symbols (txt "BBAuto alert: AAPL AAPL"))
    with [txt "AAPL"; txt "AAPL"].
  intros Hnd. apply NoDup_cons in Hnd as [Hnotin _]. apply Hnotin. left.
Qed.

End Extraction.

(** * The scanner queue *)

Section ScannerQueue.
Import Screener.

Lemma is_symbol_no_space t :
  is_symbol t = true -> forallb (fun x => negb (is_space x)) t = true.
Proof.
  unfold is_symbol. intros [_ Hup]%andb_true_iff.
  induction t as [|c t IH]; [reflexivity|].
  cbn in *. apply andb_true_iff in Hup as [Hc Ht].
  rewrite (is_upper_not_space _ Hc), IH; auto.
Qed.

Lemma strip_symbol t : is_symbol t = true -> strip t = t.
Proof. intros Ht. apply strip_trimmed, trimmed_no_space, is_symbol_no_space, Ht. Qed.

Lemma split_word t :
  t <> [] -> forallb (fun x => negb (is_space x)) t = true -> split t = [t].
Proof.
  destruct t as [|c t]; [congruence|]. intros _ Ht. cbn [forallb] in Ht.
  apply andb_true_iff in Ht as [Hc Ht]. apply negb_true_iff in Hc.
  unfold split. rewrite tokens_run by exact Hc.
  rewrite take_while_all, drop_while_all by exact Ht. reflexivity.
Qed.

Lemma is_symbol_clean t : is_symbol t = true -> clean t.
Proof.
  intros Hs. split; [|split].
  - intros ->. discriminate.
  - apply is_symbol_no_space, Hs.
  - unfold is_symbol in Hs. apply andb_true_iff in Hs as [_ Hup].
    induction t as [|c t IH]; [reflexivity|].
    cbn in *. apply andb_true_iff in Hup as [Hc Ht].
    rewrite (is_upper_fixed _ Hc). f_equal. apply IH, Ht.
Qed.

(** A file whose lines are symbols lists just these symbols. *)
Lemma symbol_list_symbols ts :
  Forall (fun t => is_symbol t = true) ts -> symbol_list ts = ts.
Proof.
  induction 1 as [|t ts Ht _ IH]; [reflexivity|].
  destruct (is_symbol_clean t Ht) as (Hne & Hsp & Hup).
  unfold symbol_list in *. rewrite filter_cons.
  rewrite (strip_symbol t Ht), (split_word t Hne Hsp).
  assert (Hnb : nonempty t = true) by (destruct t; [congruence|reflexivity]).
  rewrite Hnb. cbn [nonempty andb].
  rewrite decide_True by exact I. cbn [map]. rewrite IH.
  rewrite (split_word t Hne Hsp). unfold first. cbn [hd]. rewrite Hup. reflexivity.
Qed.

Lemma scanner_update_scanner_file `{SetOrder} tickers st :
  scanner (update_scanner_file tickers st) =
    Some (union_iter (match scanner st with
                      | Some lines => map strip lines
                      | None => []
                      end) tickers).
Proof. reflexivity. Qed.

(** C7, as amended: merging the same symbols into the scanner file a second
    time leaves the file with the same lines as the first merge, each of them
    once, in the order in which Python iterates the set (which may differ
    between the two merges); when every prior line is just a symbol, the
    file lists each symbol once. *)
Theorem update_scanner_file_idempotent `{SetOrder} (tickers : list str) (st : state) :
  Forall (fun t => is_symbol t = true) tickers ->
  exists once twice,
    scanner (update_scanner_file tickers st) = Some once /\
    scanner (update_scanner_file tickers (update_scanner_file tickers st)) = Some twice /\
    twice ≡ₚ once /\
    NoDup once /\ NoDup twice /\
    (Forall (fun line => is_symbol (strip line) = true) (default [] (scanner st)) ->
     NoDup (symbol_list once) /\ NoDup (symbol_list twice)).
Proof.
  intros Hsym. rewrite !scanner_update_scanner_file.
  set (existing := match scanner st with Some lines => map strip lines | None => [] end).
  assert (Hexisting : forall x, x ∈ existing -> strip x = x).
  { intros x Hx. subst existing. destruct (scanner st) as [lines|].
    - apply list_elem_of_fmap in Hx as (l & -> & _). apply strip_idem.
    - apply elem_of_nil in Hx. contradiction. }
  assert (Hfix : map strip (union_iter existing tickers) = union_iter existing tickers).
  { rewrite <- (map_id (union_iter existing tickers)) at 2.
    apply map_ext_in. intros x Hx%list_elem_of_In.
    apply union_iter_elem in Hx as [Hx|Hx]; [apply Hexisting, Hx|].
    apply strip_symbol. rewrite Forall_forall in Hsym. apply Hsym, Hx. }
  eexists _, _. split; [reflexivity|]. split; [reflexivity|].
  rewrite Hfix.
  split; [|split; [|split]]; try apply union_iter_NoDup.
  - apply NoDup_Permutation; try apply union_iter_NoDup.
    intros x. rewrite !union_iter_elem. tauto.
  - intros Hprior.
    assert (Hall : forall e, (forall x, x ∈ e -> x ∈ existing \/ x ∈ tickers) ->
              Forall (fun t => is_symbol t = true) (union_iter e tickers)).
    { intros e He. apply Forall_forall. intros x Hx.
      assert (Hx' : x ∈ existing \/ x ∈ tickers).
      { apply union_iter_elem in Hx as [Hx|Hx]; [apply He, Hx|right; exact Hx]. }
      destruct Hx' as [Hx'|Hx'].
      - subst existing. destruct (scanner st) as [lines|];
          [|apply elem_of_nil in Hx'; contradiction].
        apply list_elem_of_fmap in Hx' as (l & -> & Hl).
        cbn [default] in Hprior. rewrite Forall_forall in Hprior. apply Hprior, Hl.
      - rewrite Forall_forall in Hsym. apply Hsym, Hx'. }
    split; rewrite symbol_list_symbols; try apply union_iter_NoDup.
    + apply Hall. tauto.
    + apply Hall. intros x Hx. apply union_iter_elem, Hx.
Qed.

Lemma update_scanner_file_idempotent_witness :
  let _ := Concrete.insertion_order in
  let st := {| open_positions := ∅; scanner := Some [txt "MSFT"; txt " GO "];
               watchlist := None; openpositions := None; trace := [] |} in
  let tickers := [txt "AAPL"; txt "MSFT"] in
  Forall (fun t => is_symbol t = true) tickers /\
  exists once twice,
    scanner (update_scanner_file tickers st) = Some once /\
    scanner (update_scanner_file tickers (update_scanner_file tickers st)) = Some twice /\
    twice ≡ₚ once /\
    NoDup once /\ NoDup twice /\
    (Forall (fun line => is_symbol (strip line) = true) (default [] (scanner st)) ->
     NoDup (symbol_list once) /\ NoDup (symbol_list twice)).
Proof.
  intros ord st tickers.
  assert (Hsym : Forall (fun t => is_symbol t = true) tickers)
    by (repeat constructor).
  split; [exact Hsym|].
  exact (update_scanner_file_idempotent tickers st Hsym).
Defined.

(** C7, as stated, fails twice.  With an iteration order that lists
    the newest element first, the second merge of [AAPL] into a file of two
    lines writes these lines in another order than the first merge.  And a
    prior line [aapl] is another element of the set than the ticker
    [AAPL], so the file then lists the symbol AAPL on two lines. *)
Lemma update_scanner_file_reorders :
  (let st := {| open_positions := ∅; scanner := Some [txt "MSFT"; txt "GO"];
                watchlist := None; openpositions := None; trace := [] |} in
   let once := @update_scanner_file Concrete.newest_first [txt "AAPL"] st in
   let twice := @update_scanner_file Concrete.newest_first [txt "AAPL"] once in
   scanner once = Some [txt "AAPL"; txt "GO"; txt "MSFT"] /\
   scanner twice = Some [txt "AAPL"; txt "MSFT"; txt "GO"] /\
   scanner twice <> scanner once) /\
  (let st := {| open_positions := ∅; scanner := Some [txt "aapl"];
                watchlist := None; openpositions := None; trace := [] |} in
   let once := @update_scanner_file Concrete.insertion_order [txt "AAPL"] st in
   scanner once = Some [txt "aapl"; txt "AAPL"] /\
   symbol_list (default [] (scanner once)) = [txt "AAPL"; txt "AAPL"] /\
   ~ NoDup (symbol_list (default [] (scanner once)))).
Proof.
  split.
  - split; [vm_compute; reflexivity|]. split; [vm_compute; reflexivity|].
    vm_compute. discriminate.
  - split; [vm_compute; reflexivity|].
    assert (E : symbol_list (default [] (scanner
                  (@update_scanner_file Concrete.insertion_order [txt "AAPL"]
                     {| open_positions := ∅; scanner := Some [txt "aapl"];
                        watchlist := None; openpositions := None; trace := [] |})))
                = [txt "AAPL"; txt "AAPL"]) by (vm_compute; reflexivity).
    split; [exact E|]. cbn zeta. rewrite E.
    intros Hnd. apply NoDup_cons in Hnd as [Hnotin _]. apply Hnotin. left.
Qed.

Lemma has_other_first_token_keeps symbol line :
  has_other_first_token symbol line = keeps symbol line.
Proof.
  unfold has_other_first_token, keeps, first_token.
  rewrite split_strip.
  destruct (split line) as [|t ts] eqn:E.
  - apply strip_nil_iff in E. rewrite E. reflexivity.
  - assert (Hne : strip line <> []).
    { intros Hs. apply strip_nil_iff in Hs. congruence. }
    destruct (strip line); [congruence|]. reflexivity.
Qed.

(** C8: removing a symbol rewrites the scanner file with exactly the prior
    lines that have a first token and whose first token is not the symbol
    (whatever the case), unchanged and in their order; no line whose first
    token is the symbol remains (a blank line has no first token and is
    not kept either).  Nothing else changes. *)
Theorem remove_ticker_from_scanner_filters (symbol : str) (lines : list str)
    (held : gset str) (wl pos : option (list str)) (tr : list event) :
  let st := {| open_positions := held; scanner := Some lines; watchlist := wl;
               openpositions := pos; trace := tr |} in
  let st' := _remove_ticker_from_scanner symbol st in
  scanner st' = Some (filter (fun line => has_other_first_token symbol line) lines)
  /\ (forall line t, line ∈ default [] (scanner st') -> first_token line = Some t ->
                     upper t <> upper symbol)
  /\ (forall line t, line ∈ lines -> first_token line = Some t ->
                     upper t = upper symbol -> line ∉ default [] (scanner st'))
  /\ watchlist st' = wl /\ openpositions st' = pos /\ open_positions st' = held.
Proof.
  cbn zeta. unfold _remove_ticker_from_scanner. cbn [scanner write_scanner log
    watchlist openpositions open_positions].
  assert (E : filter (fun line => keeps symbol line) lines =
              filter (fun line => has_other_first_token symbol line) lines).
  { apply list_filter_iff. intros l. rewrite has_other_first_token_keeps. reflexivity. }
  rewrite E. split; [reflexivity|]. cbn [default].
  split; [|split; [|auto]].
  - intros line t Hin Ht. apply list_elem_of_filter in Hin as [Hk _].
    unfold has_other_first_token in Hk. rewrite Ht in Hk.
    apply Is_true_true, negb_true_iff, bool_decide_eq_false in Hk. exact Hk.
  - intros line t _ Ht Heq Hin. apply list_elem_of_filter in Hin as [Hk _].
    unfold has_other_first_token in Hk. rewrite Ht in Hk.
    apply Is_true_true, negb_true_iff, bool_decide_eq_false in Hk. contradiction.
Qed.

End ScannerQueue.

(** * Crossover age *)

Section Crossover.
Import Screener.
Context {F : Type} `{FloatOps F}.

Lemma last_nth {A} (l : list A) (d : A) : List.last l d = nth (length l - 1) l d.
Proof.
  induction l as [|a l IH]; [reflexivity|].
  destruct l as [|b l]; [reflexivity|].
  change (List.last (a :: b :: l) d) with (List.last (b :: l) d).
  rewrite IH. cbn [length].
  replace (S (S (length l)) - 1) with (S (S (length l) - 1)) by lia. reflexivity.
Qed.

(** The backward scan stops at the first bar, going back, whose
    predecessor is not above; every bar from there on is above. *)
Lemma crossover_scan_spec (above : list bool) (i : nat) :
  (forall j, i <= j < length above -> nth j above false = true) ->
  (exists k, 1 <= k <= i /\ crossover_scan above i = length above - k /\
             nth (k - 1) above false = false /\
             forall j, k <= j < length above -> nth j above false = true)
  \/ (crossover_scan above i = length above /\
      forall j, j < length above -> nth j above false = true).
Proof.
  induction i as [|i IH]; intros Hrun.
  - right. split; [reflexivity|]. intros j Hj. apply Hrun. lia.
  - cbn [crossover_scan]. destruct (nth i above false) eqn:Hi; cbn [negb andb].
    + destruct IH as [(k & Hk & Hscan & Hprev & Hall)|[Hscan Hall]].
      * intros j Hj. destruct (decide (j = i)) as [->|]; [exact Hi|]. apply Hrun. lia.
      * left. exists k. repeat split; try lia; auto.
      * right. auto.
    + left. exists (S i). cbn [Nat.sub]. rewrite Nat.sub_0_r.
      repeat split; try lia; auto.
      destruct (nth (S i) above false); reflexivity.
Qed.

Lemma crossed_at_after_run (above : list bool) (k j : nat) :
  (forall m, k <= m < length above -> nth m above false = true) ->
  k < j < length above -> crossed_at above j = false.
Proof.
  intros Hall Hj. unfold crossed_at. rewrite (Hall (j - 1)) by lia.
  cbn [negb]. rewrite andb_false_r. reflexivity.
Qed.

Lemma validate_frame_with_decision (cross1 cross2 : list F -> list F -> option nat)
    (df : list bar) :
  fst (validate_frame_with cross1 df) = fst (validate_frame_with cross2 df).
Proof.
  unfold validate_frame_with.
  destruct (calculate_ema df 21), (calculate_ema df 100); try reflexivity.
  destruct (calculate_bollinger_bands df 20 2); reflexivity.
Qed.

(** C9: when the last bar has EMA(21) > EMA(100), the value computed is
    [n - i], where bar [i] is the most recent bar at which the 21-bar
    average came from not above to above (the number of bars from the last
    bar that was not above to the most recent one), or the length [n] of
    the series when there is no such bar; and the accept/reject decision
    is the same whatever is computed for it. *)
Theorem bars_since_crossover_spec (ema_21 ema_100 : list F) :
  length ema_21 = length ema_100 ->
  List.last (zip_with fgt ema_21 ema_100) false = true ->
  let above := zip_with fgt ema_21 ema_100 in
  let n := length above in
  (exists d, calculate_bars_since_crossover ema_21 ema_100 = Some d /\
     ((exists i, i < n /\ crossed_at above i = true /\
                 (forall j, i < j < n -> crossed_at above j = false) /\
                 d = n - i)
      \/ ((forall j, j < n -> crossed_at above j = false) /\ d = n)))
  /\ forall (cross : list F -> list F -> option nat) (df : list bar),
       fst (validate_frame_with cross df) = fst (validate_frame df).
Proof.
  intros Hlen Hlast above n. split; [|intros; apply validate_frame_with_decision].
  unfold calculate_bars_since_crossover. fold above.
  rewrite Hlen, Nat.eqb_refl. cbn [negb].
  change (List.last above false = true) in Hlast. clearbody above.
  assert (Hn : 1 <= n).
  { subst n. destruct above; [discriminate Hlast|cbn; lia]. }
  replace (nonempty above) with true by (destruct above; [cbn in Hn; lia|reflexivity]).
  cbn [negb]. rewrite Hlast. cbn [negb]. eexists. split; [reflexivity|].
  rewrite last_nth in Hlast. fold n in Hlast.
  destruct (crossover_scan_spec above (n - 1)) as [(k & Hk & Hscan & Hprev & Hall)|[Hscan Hall]].
  - intros j Hj. replace j with (n - 1) by (subst n; lia). exact Hlast.
  - left. exists k. fold n in Hscan, Hall. repeat split.
    + lia.
    + unfold crossed_at. rewrite Hprev, (Hall k) by lia.
      replace (1 <=? k) with true by (symmetry; apply Nat.leb_le; lia). reflexivity.
    + intros j Hj. apply (crossed_at_after_run above k j); [exact Hall|]. fold n. lia.
    + exact Hscan.
  - right. fold n in Hscan, Hall. split; [|exact Hscan].
    intros j Hj. unfold crossed_at. destruct j; [reflexivity|].
    cbn [Nat.sub]. rewrite Nat.sub_0_r, (Hall j) by lia. cbn. reflexivity.
Qed.

End Crossover.

Lemma bars_since_crossover_spec_witness :
  let ema_21 := map Concrete.price [1; 1; 3; 4] in
  let ema_100 := map Concrete.price [2; 2; 2; 2] in
  let above := zip_with fgt ema_21 ema_100 in
  let n := length above in
  (length ema_21 = length ema_100 /\
   List.last above false = true /\
   Screener.calculate_bars_since_crossover ema_21 ema_100 = Some 2) /\
  (exists d, Screener.calculate_bars_since_crossover ema_21 ema_100 = Some d /\
     ((exists i, i < n /\ Screener.crossed_at above i = true /\
                 (forall j, i < j < n -> Screener.crossed_at above j = false) /\
                 d = n - i)
      \/ ((forall j, j < n -> Screener.crossed_at above j = false) /\ d = n)))
  /\ forall (cross : list Concrete.rat_float -> list Concrete.rat_float -> option nat)
            (df : list Screener.bar),
       fst (Screener.validate_frame_with cross df) = fst (Screener.validate_frame df).
Proof.
  intros ema_21 ema_100 above n.
  split; [repeat split; reflexivity|].
  apply (bars_since_crossover_spec ema_21 ema_100); reflexivity.
Defined.

(** * What each operation leaves alone *)

Section Frames.
Import Screener.
Context {F : Type} `{FloatOps F}.

Lemma scanner_step_refl st : scanner_step st st [].
Proof. unfold scanner_step. rewrite app_nil_r. auto. Qed.

Lemma scanner_step_trans st1 st2 st3 evs1 evs2 :
  scanner_step st1 st2 evs1 -> scanner_step st2 st3 evs2 ->
  scanner_step st1 st3 (evs1 ++ evs2).
Proof.
  unfold scanner_step. intros (-> & -> & -> & E1) (-> & -> & -> & ->).
  rewrite E1, app_assoc. auto.
Qed.

Lemma remove_ticker_step ticker st :
  exists evs, scanner_step st (_remove_ticker_from_scanner ticker st) evs /\
              Forall (fun e => is_scanner_write e = true) evs.
Proof.
  unfold _remove_ticker_from_scanner. destruct (scanner st).
  - eexists [_]. split; [repeat split|repeat constructor].
  - exists []. split; [apply scanner_step_refl|constructor].
Qed.

Lemma first_ticker_scan_step lines : forall st r st',
  first_ticker_scan lines st = (r, st') ->
  exists evs, scanner_step st st' evs /\
              Forall (fun e => is_scanner_write e = true) evs.
Proof.
  induction lines as [|line rest IH]; intros st r st' E; cbn in E.
  - injection E as <- <-. exists []. split; [apply scanner_step_refl|constructor].
  - destruct (nonempty (strip line)); cbn [negb] in E; [|eauto].
    destruct (bool_decide _).
    + destruct (remove_ticker_step (upper (first (split (strip line)))) st)
        as (evs1 & Hs1 & Hw1).
      destruct (IH _ _ _ E) as (evs2 & Hs2 & Hw2).
      exists (evs1 ++ evs2). split; [eapply scanner_step_trans; eauto|].
      apply Forall_app; auto.
    + injection E as <- <-. exists []. split; [apply scanner_step_refl|constructor].
Qed.

(** The ticker selected is a clean word that is not an open position. *)
Lemma first_ticker_scan_selected lines : forall st ticker st',
  first_ticker_scan lines st = (Some ticker, st') ->
  clean ticker /\ ticker ∉ open_positions st'.
Proof.
  induction lines as [|line rest IH]; intros st ticker st' E; cbn in E; [discriminate|].
  destruct (nonempty (strip line)) eqn:Hne; cbn [negb] in E; [|eauto].
  destruct (bool_decide _) eqn:Hheld; [eauto|].
  injection E as <- <-. split.
  - rewrite split_strip. apply first_token_clean.
    intros Hs. apply strip_nil_iff in Hs. rewrite Hs in Hne. discriminate.
  - apply bool_decide_eq_false in Hheld. exact Hheld.
Qed.

Lemma get_first_ticker_step st r st' :
  get_first_ticker_from_scanner st = (r, st') ->
  exists evs, scanner_step st st' evs /\
              Forall (fun e => is_scanner_write e = true) evs.
Proof.
  unfold get_first_ticker_from_scanner. destruct (scanner st).
  - apply first_ticker_scan_step.
  - intros [= <- <-]. exists []. split; [apply scanner_step_refl|constructor].
Qed.

Lemma get_first_ticker_selected st ticker st' :
  get_first_ticker_from_scanner st = (Some ticker, st') ->
  clean ticker /\ ticker ∉ open_positions st'.
Proof.
  unfold get_first_ticker_from_scanner. destruct (scanner st); [|discriminate].
  apply first_ticker_scan_selected.
Qed.

Lemma download_attempts_step (market : @market_oracle F) symbol n : forall st r st',
  download_attempts n market symbol st = (r, st') ->
  exists evs, silent_step st st' evs /\ Forall (fun e => e = Fetched symbol) evs.
Proof.
  induction n as [|n IH]; intros st r st' E; cbn in E.
  - injection E as <- <-. exists []. split; [|constructor].
    split; [reflexivity|apply scanner_step_refl].
  - assert (Hlog : silent_step st (log (Fetched symbol) st) [Fetched symbol])
      by (repeat split).
    destruct (market (fetch_count st) symbol) as [df| |].
    + exists [Fetched symbol]. split; [|repeat constructor].
      destruct (nonempty df); injection E as <- <-; exact Hlog.
    + destruct (IH _ _ _ E) as (evs & (Hsc & Hst) & Hev).
      exists ([Fetched symbol] ++ evs). split; [|constructor; auto].
      destruct Hlog as (Hsc0 & Hst0). split; [congruence|].
      eapply scanner_step_trans; eauto.
    + destruct (IH _ _ _ E) as (evs & (Hsc & Hst) & Hev).
      exists ([Fetched symbol] ++ evs). split; [|constructor; auto].
      destruct Hlog as (Hsc0 & Hst0). split; [congruence|].
      eapply scanner_step_trans; eauto.
Qed.

Lemma download_attempts_fetches (market : @market_oracle F) symbol n : forall st r st',
  download_attempts (S n) market symbol st = (r, st') ->
  exists evs, trace st' = trace st ++ Fetched symbol :: evs.
Proof.
  intros st r st' E. cbn in E.
  destruct (market (fetch_count st) symbol) as [df| |].
  - exists []. destruct (nonempty df); injection E as <- <-; reflexivity.
  - apply download_attempts_step in E as (evs & (_ & _ & _ & _ & Ht) & _).
    exists evs. rewrite Ht. cbn. rewrite <- app_assoc. reflexivity.
  - apply download_attempts_step in E as (evs & (_ & _ & _ & _ & Ht) & _).
    exists evs. rewrite Ht. cbn. rewrite <- app_assoc. reflexivity.
Qed.

Lemma validate_step (market : @market_oracle F) symbol st r st' :
  validate_ema_criteria market symbol st = (r, st') ->
  exists evs, silent_step st st' evs /\ Forall (fun e => e = Fetched symbol) evs.
Proof.
  unfold validate_ema_criteria, download_historical_data.
  destruct (download_attempts max_retries market symbol st) as [[df|] st1] eqn:E;
    intros [= <- <-]; eapply download_attempts_step; eauto.
Qed.

End Frames.

(** * Validation *)

Section Validation.
Import Screener.
Context {F : Type} `{FloatOps F}.





Lemma last_zip_with {A B C} (f : A -> B -> C) : forall (a : list A) (b : list B) da db d,
  length a = length b -> a <> [] ->
  List.last (zip_with f a b) d = f (List.last a da) (List.last b db).
Proof.
  induction a as [|x a IH]; intros b da db d Hlen Hne; [congruence|].
  destruct b as [|y b]; [discriminate|].
  destruct a as [|x' a], b as [|y' b]; try discriminate; [reflexivity|].
  change (List.last (zip_with f (x :: x' :: a) (y :: y' :: b)) d)
    with (List.last (zip_with f (x' :: a) (y' :: b)) d).
  change (List.last (x :: x' :: a) da) with (List.last (x' :: a) da).
  change (List.last (y :: y' :: b) db) with (List.last (y' :: b) db).
  apply IH; [cbn in *; lia|discriminate].
Qed.



Lemma calculate_ema_short df period : length df < period -> calculate_ema df period = None.
Proof.
  intros Hlt. unfold calculate_ema.
  replace (length df <? period) with true by (symmetry; apply Nat.ltb_lt; lia).
  reflexivity.
Qed.


Lemma validate_frame_short cross df :
  length df < 100 -> validate_frame_with cross df = (false, None).
Proof.
  intros Hlt. unfold validate_frame_with.
  rewrite (calculate_ema_short df 100) by exact Hlt.
  destruct (calculate_ema df 21); reflexivity.
Qed.


Lemma watchlist_remove_ticker ticker st :
  watchlist (_remove_ticker_from_scanner ticker st) = watchlist st.
Proof. unfold _remove_ticker_from_scanner. destruct (scanner st); reflexivity. Qed.

Lemma watchlist_add_to_watchlist symbol (low : F) st :
  watchlist (add_to_watchlist symbol low st) =
    if bool_decide (symbol ∈ _get_watchlist_symbols st) then watchlist st
    else Some (default [] (watchlist st) ++ [watchlist_line symbol low]).
Proof. unfold add_to_watchlist. destruct (bool_decide _); reflexivity. Qed.

Lemma get_watchlist_symbols_ext st st' :
  watchlist st' = watchlist st -> _get_watchlist_symbols st' = _get_watchlist_symbols st.
Proof. unfold _get_watchlist_symbols. intros ->. reflexivity. Qed.

(** C4: a history of fewer than a hundred bars (or none at all) is
    rejected with the empty result, whatever its prices. *)
Theorem validation_rejects_short_history (market : @market_oracle F)
    (symbol : str) (st st' : state) (r : option (list bar)) :
  download_historical_data market symbol st = (r, st') ->
  (forall df, r = Some df -> length df < 100) ->
  validate_ema_criteria market symbol st = ((false, None), st').
Proof.
  intros Hd Hshort. unfold validate_ema_criteria. rewrite Hd.
  destruct r as [df|]; [|reflexivity].
  unfold validate_frame. rewrite validate_frame_short; auto.
Qed.


End Validation.

Lemma validation_rejects_short_history_witness :
  let market : Screener.market_oracle := fun _ _ => Screener.Frame (repeat (flat_bar 1) 99) in
  let st := one_queued "AAPL" in
  let st' := Screener.log (Screener.Fetched (txt "AAPL")) st in
  Screener.validate_ema_criteria market (txt "AAPL") st = ((false, None), st').
Proof.
  intros market st st'.
  apply (validation_rejects_short_history market (txt "AAPL") st st'
           (Some (repeat (flat_bar 1) 99))).
  - reflexivity.
  - intros df [= <-]. vm_compute. lia.
Defined.


(** A missing close is skipped by the exponential average: the average is
    carried over and the next close is weighted by its distance to the
    last one; before the first close there is no average.  A history with
    a missing close is validated on the averages so computed. *)
Example ewm_mean_skips_missing_close :
  Screener.ewm_mean 3 [price 1; NaN; price 3] = [price 1; price 1; Num (7 # 3)] /\
  Screener.ewm_mean 3 [NaN; price 2; price 2; price 4] = [NaN; price 2; price 2; price 3] /\
  length breakout_with_gap = 100 /\
  Screener.ema_now 21 (map Screener.Close breakout_with_gap) = price 10 /\
  Screener.ema_now 100 (map Screener.Close breakout_with_gap) = Num (299 # 101) /\
  fst (Screener.validate_frame breakout_with_gap) = true.
Proof. vm_compute. repeat split. Qed.

(** * The cycle *)

Section Cycle.
Import Screener.
Context {F : Type} `{FloatOps F}.

Lemma load_symbols_app lines1 lines2 :
  _load_symbols (lines1 ++ lines2) = _load_symbols lines1 ∪ _load_symbols lines2.
Proof.
  unfold _load_symbols. rewrite filter_app, map_app, list_to_set_app_L. reflexivity.
Qed.

Lemma load_symbols_watchlist_line symbol (low : F) :
  clean symbol -> _load_symbols [watchlist_line symbol low] = {[ symbol ]}.
Proof.
  intros (Hne & Hsp & Hup). unfold _load_symbols, watchlist_line.
  assert (Hsplit : split (symbol ++ txt " " ++ fmt2 low) = symbol :: split (fmt2 low))
    by (apply split_clean_line; auto).
  assert (Hstrip : nonempty (strip (symbol ++ txt " " ++ fmt2 low)) = true).
  { destruct (strip (symbol ++ txt " " ++ fmt2 low)) eqn:E; [|reflexivity].
    apply strip_nil_iff in E. congruence. }
  rewrite filter_cons.
  rewrite decide_True by (rewrite Hstrip, Hsplit; exact I).
  rewrite filter_nil. cbn [map]. rewrite Hsplit. unfold first. cbn [hd].
  rewrite Hup. cbn [list_to_set]. apply (right_id_L ∅ (∪)).
Qed.

Lemma symbols_add_to_watchlist symbol (low : F) st :
  clean symbol ->
  _get_watchlist_symbols (add_to_watchlist symbol low st) =
    _get_watchlist_symbols st ∪ {[ symbol ]}.
Proof.
  intros Hclean. unfold add_to_watchlist.
  destruct (bool_decide _) eqn:Hin.
  - apply bool_decide_eq_true in Hin. apply set_eq. intros x.
    rewrite elem_of_union, elem_of_singleton. split; [auto|].
    intros [Hx| ->]; assumption.
  - unfold _get_watchlist_symbols at 1. cbn [append_watchlist log watchlist].
    rewrite load_symbols_app, load_symbols_watchlist_line by exact Hclean.
    unfold _get_watchlist_symbols. destruct (watchlist st); cbn [default]; [reflexivity|].
    unfold _load_symbols. cbn. reflexivity.
Qed.

Lemma open_positions_add_to_watchlist symbol (low : F) st :
  open_positions (add_to_watchlist symbol low st) = open_positions st.
Proof. unfold add_to_watchlist. destruct (bool_decide _); reflexivity. Qed.

Lemma open_positions_remove_ticker ticker st :
  open_positions (_remove_ticker_from_scanner ticker st) = open_positions st.
Proof. unfold _remove_ticker_from_scanner. destruct (scanner st); reflexivity. Qed.

Lemma scanner_add_to_watchlist symbol (low : F) st :
  scanner (add_to_watchlist symbol low st) = scanner st.
Proof. unfold add_to_watchlist. destruct (bool_decide _); reflexivity. Qed.

(** One pass over the scanner keeps the open positions and adds to the
    watchlist at most the selected ticker, which is not an open position. *)
Lemma process_next_ticker_watchlist (market : @market_oracle F) st :
  open_positions (process_next_ticker market st) = open_positions st /\
  forall s, s ∈ _get_watchlist_symbols (process_next_ticker market st) ->
            s ∈ _get_watchlist_symbols st \/ s ∉ open_positions st.
Proof.
  unfold process_next_ticker.
  destruct (get_first_ticker_from_scanner st) as [[ticker|] st1] eqn:Hsel.
  2:{ apply get_first_ticker_step in Hsel as (evs & (Hop & Hw & _) & _).
      split; [exact Hop|]. intros s Hs. left.
      rewrite <- (get_watchlist_symbols_ext st st1 Hw). exact Hs. }
  destruct (get_first_ticker_selected _ _ _ Hsel) as [Hclean Hfree].
  apply get_first_ticker_step in Hsel as (evs1 & (Hop1 & Hw1 & _) & _).
  destruct (validate_ema_criteria market ticker st1) as [[valid vals] st2] eqn:Hval.
  apply validate_step in Hval as (evs2 & (_ & Hop2 & Hw2 & _) & _).
  assert (Hop : open_positions st2 = open_positions st) by congruence.
  assert (Hw : watchlist st2 = watchlist st) by congruence.
  destruct valid.
  - rewrite open_positions_remove_ticker, open_positions_add_to_watchlist.
    split; [exact Hop|]. intros s.
    rewrite (get_watchlist_symbols_ext _ _ (watchlist_remove_ticker _ _)).
    rewrite symbols_add_to_watchlist by exact Hclean.
    rewrite (get_watchlist_symbols_ext st st2 Hw).
    intros [Hs| ->%elem_of_singleton]%elem_of_union; [left; exact Hs|].
    right. rewrite <- Hop1. exact Hfree.
  - rewrite open_positions_remove_ticker. split; [exact Hop|].
    intros s. rewrite (get_watchlist_symbols_ext _ _ (watchlist_remove_ticker _ _)).
    rewrite (get_watchlist_symbols_ext st st2 Hw). auto.
Qed.

Lemma check_email_frame `{SetOrder} contents : forall st,
  open_positions (check_email_for_tickers contents st) = open_positions st /\
  watchlist (check_email_for_tickers contents st) = watchlist st.
Proof.
  unfold check_email_for_tickers.
  induction contents as [|c contents IH]; intros st; [split; reflexivity|].
  cbn [fold_left].
  destruct (nonempty (extract_ticker_symbols c)).
  - destruct (IH (update_scanner_file (extract_ticker_symbols c) st)) as [-> ->].
    split; reflexivity.
  - apply IH.
Qed.

Lemma reload_positions_frame snapshot st :
  watchlist (reload_positions snapshot st) = watchlist st /\
  open_positions (reload_positions snapshot st) =
    match snapshot with Some lines => _load_symbols lines | None => open_positions st end.
Proof. unfold reload_positions. destruct snapshot; split; reflexivity. Qed.

Lemma removal_events_writes ts : forall cur,
  Forall (fun e => is_scanner_write e = true) (removal_events ts cur).
Proof. induction ts as [|t ts IH]; intros cur; constructor; auto. Qed.

(** The selection loop: the tickers it drops are open positions, and each
    drop rewrites the scanner file without the lines of that ticker. *)
Lemma first_ticker_scan_drops lines : forall st r st' cur,
  first_ticker_scan lines st = (r, st') ->
  scanner st = Some cur ->
  exists dropped,
    Forall (fun t => t ∈ open_positions st) dropped /\
    trace st' = trace st ++ removal_events dropped cur /\
    scanner st' = Some (remaining dropped cur).
Proof.
  induction lines as [|line rest IH]; intros st r st' cur E Hcur; cbn [first_ticker_scan] in E.
  - injection E as <- <-. exists []. rewrite app_nil_r. auto.
  - destruct (nonempty (strip line)); cbn [negb] in E; [|eauto].
    destruct (bool_decide _) eqn:Hheld.
    + apply bool_decide_eq_true in Hheld.
      set (t := upper (first (split (strip line)))) in *.
      assert (Hrm : _remove_ticker_from_scanner t st =
                    write_scanner (filter (fun l => keeps t l) cur) st)
        by (unfold _remove_ticker_from_scanner; rewrite Hcur; reflexivity).
      rewrite Hrm in E.
      destruct (IH _ _ _ (filter (fun l => keeps t l) cur) E eq_refl)
        as (dropped & Hall & Htr & Hsc).
      exists (t :: dropped). split; [constructor; auto|].
      cbn [removal_events]. split; [|exact Hsc].
      rewrite Htr. cbn [write_scanner log trace]. rewrite <- app_assoc. reflexivity.
    + injection E as <- <-. exists []. rewrite app_nil_r. auto.
Qed.

Lemma get_first_ticker_drops st :
  exists dropped,
    Forall (fun t => t ∈ open_positions st) dropped /\
    trace (snd (get_first_ticker_from_scanner st)) =
      trace st ++ removal_events dropped (default [] (scanner st)) /\
    scanner (snd (get_first_ticker_from_scanner st)) =
      fmap (remaining dropped) (scanner st).
Proof.
  unfold get_first_ticker_from_scanner.
  destruct (scanner st) as [cur|] eqn:Hcur.
  - destruct (first_ticker_scan cur st) as [r st'] eqn:E.
    destruct (first_ticker_scan_drops cur st r st' cur E Hcur) as (d & ? & ? & ?).
    exists d. cbn [snd default fmap option_fmap option_map]. auto.
  - exists []. cbn [snd removal_events]. rewrite app_nil_r, Hcur. auto.
Qed.

Lemma get_first_ticker_some st ticker :
  fst (get_first_ticker_from_scanner st) = Some ticker ->
  clean ticker /\ (ticker ∉ open_positions st) /\ scanner st <> None.
Proof.
  destruct (get_first_ticker_from_scanner st) as [r st1] eqn:E. cbn [fst]. intros ->.
  destruct (get_first_ticker_selected _ _ _ E) as [Hclean Hfree].
  destruct (get_first_ticker_step _ _ _ E) as (evs & (Hop & _) & _).
  split; [exact Hclean|]. split; [rewrite <- Hop; exact Hfree|].
  unfold get_first_ticker_from_scanner in E. destruct (scanner st); [discriminate|].
  discriminate.
Qed.

(** A validation downloads at least once, and nothing else. *)
Lemma validate_fetches (market : @market_oracle F) symbol st :
  exists fetches,
    fetches <> [] /\ Forall (fun e => e = Fetched symbol) fetches /\
    silent_step st (snd (validate_ema_criteria market symbol st)) fetches.
Proof.
  destruct (validate_ema_criteria market symbol st) as [r st'] eqn:Hval. cbn [snd].
  destruct (validate_step _ _ _ _ _ Hval) as (evs & Hstep & Hall).
  exists evs. split; [|auto].
  unfold validate_ema_criteria, download_historical_data in Hval.
  destruct (download_attempts max_retries market symbol st) as [[df|] st1] eqn:E;
    injection Hval as <- <-;
    apply download_attempts_fetches in E as (evs' & Htr);
    destruct Hstep as (_ & _ & _ & _ & Htr');
    rewrite Htr in Htr'; apply app_inv_head in Htr'; subst evs; discriminate.
Qed.

Lemma trace_add_to_watchlist ticker (low : F) st :
  exists appended,
    trace (add_to_watchlist ticker low st) = trace st ++ appended /\
    (appended = [] \/ appended = [WatchlistAppended (watchlist_line ticker low)]).
Proof.
  unfold add_to_watchlist. destruct (bool_decide _).
  - exists []. rewrite app_nil_r. auto.
  - eexists. split; [reflexivity|]. right. reflexivity.
Qed.

Lemma trace_remove_ticker ticker st cur :
  scanner st = Some cur ->
  trace (_remove_ticker_from_scanner ticker st) =
    trace st ++ [ScannerWritten (filter (fun line => keeps ticker line) cur)].
Proof. intros Hcur. unfold _remove_ticker_from_scanner. rewrite Hcur. reflexivity. Qed.

(** One pass over the scanner, event by event: the removals of the open
    positions met while a ticker is selected; then, if one is selected,
    the downloads of its validation; then the writes for it, a line
    appended to the watchlist if it is accepted and its removal from the
    scanner file. *)
Lemma process_next_ticker_anatomy (market : @market_oracle F) (st : state) :
  exists dropped fetches writes,
    Forall (fun t => t ∈ open_positions st) dropped /\
    trace (snd (get_first_ticker_from_scanner st)) =
      trace st ++ removal_events dropped (default [] (scanner st)) /\
    scanner (snd (get_first_ticker_from_scanner st)) =
      fmap (remaining dropped) (scanner st) /\
    trace (process_next_ticker market st) =
      trace st ++ removal_events dropped (default [] (scanner st)) ++ fetches ++ writes /\
    match fst (get_first_ticker_from_scanner st) with
    | None =>
        fetches = [] /\ writes = [] /\
        _get_watchlist_symbols (process_next_ticker market st) = _get_watchlist_symbols st
    | Some ticker =>
        (ticker ∉ open_positions st) /\
        fetches <> [] /\ Forall (fun e => e = Fetched ticker) fetches /\
        trace (snd (validate_ema_criteria market ticker
                      (snd (get_first_ticker_from_scanner st)))) =
          trace st ++ removal_events dropped (default [] (scanner st)) ++ fetches /\
        (exists appended,
           writes = appended ++
                    [ScannerWritten (filter (fun line => keeps ticker line)
                                       (remaining dropped (default [] (scanner st))))] /\
           (appended = [] \/
            exists low : F, appended = [WatchlistAppended (watchlist_line ticker low)]) /\
           (fst (fst (validate_ema_criteria market ticker
                        (snd (get_first_ticker_from_scanner st)))) = false ->
            appended = [])) /\
        _get_watchlist_symbols (process_next_ticker market st) =
          (if fst (fst (validate_ema_criteria market ticker
                          (snd (get_first_ticker_from_scanner st))))
           then _get_watchlist_symbols st ∪ {[ ticker ]}
           else _get_watchlist_symbols st)
    end.
Proof.
  destruct (get_first_ticker_drops st) as (dropped & Hheld & Htr1 & Hsc1).
  pose proof (get_first_ticker_some st) as Hsome.
  unfold process_next_ticker.
  destruct (get_first_ticker_from_scanner st) as [[ticker|] st1] eqn:Hsel;
    cbn [fst snd] in *.
  2:{ exists dropped, [], []. rewrite !app_nil_r.
      apply get_first_ticker_step in Hsel as (evs & (_ & Hw & _) & _).
      rewrite (get_watchlist_symbols_ext st st1 Hw). auto 10. }
  destruct (Hsome ticker eq_refl) as (Hclean & Hfree & Hfile). clear Hsome.
  destruct (scanner st) as [cur|] eqn:Hcur; [|congruence]. clear Hfile.
  cbn [default fmap option_fmap option_map] in *.
  apply get_first_ticker_step in Hsel as (evs1 & (_ & Hw1 & _) & _).
  destruct (validate_fetches market ticker st1) as (fetches & Hne & Hall & Hstep).
  destruct (validate_ema_criteria market ticker st1) as [[valid vals] st2] eqn:Hval.
  cbn [fst snd] in *.
  destruct Hstep as (Hsc2 & _ & Hw2 & _ & Htr2).
  assert (Htr : trace st2 = trace st ++ removal_events dropped cur ++ fetches)
    by (rewrite Htr2, Htr1, <- app_assoc; reflexivity).
  assert (Hw : watchlist st2 = watchlist st) by congruence.
  assert (Hsc : scanner st2 = Some (remaining dropped cur)) by congruence.
  destruct valid.
  - set (low := match vals with Some v => low_price v | None => float_of_nat 0 end).
    destruct (trace_add_to_watchlist ticker low st2) as (appended & Htr3 & Happ).
    exists dropped, fetches,
      (appended ++ [ScannerWritten (filter (fun line => keeps ticker line)
                                      (remaining dropped cur))]).
    split; [exact Hheld|]. split; [exact Htr1|]. split; [exact Hsc1|].
    split.
    { rewrite (trace_remove_ticker ticker _ (remaining dropped cur))
        by (rewrite scanner_add_to_watchlist; exact Hsc).
      rewrite Htr3, Htr, <- !app_assoc. reflexivity. }
    split; [exact Hfree|]. split; [exact Hne|]. split; [exact Hall|].
    split; [exact Htr|]. split.
    { exists appended. split; [reflexivity|]. split; [|discriminate].
      destruct Happ as [->| ->]; [left; reflexivity|right; eauto]. }
    rewrite (get_watchlist_symbols_ext _ _ (watchlist_remove_ticker _ _)).
    rewrite symbols_add_to_watchlist by exact Hclean.
    rewrite (get_watchlist_symbols_ext st st2 Hw). reflexivity.
  - exists dropped, fetches,
      [ScannerWritten (filter (fun line => keeps ticker line) (remaining dropped cur))].
    split; [exact Hheld|]. split; [exact Htr1|]. split; [exact Hsc1|].
    split.
    { rewrite (trace_remove_ticker ticker _ (remaining dropped cur)) by exact Hsc.
      rewrite Htr, <- !app_assoc. reflexivity. }
    split; [exact Hfree|]. split; [exact Hne|]. split; [exact Hall|].
    split; [exact Htr|]. split.
    { exists []. auto. }
    rewrite (get_watchlist_symbols_ext _ _ (watchlist_remove_ticker _ _)).
    apply get_watchlist_symbols_ext, Hw.
Qed.

Lemma check_email_trace `{SetOrder} contents : forall st,
  exists evs, trace (check_email_for_tickers contents st) = trace st ++ evs /\
              Forall (fun e => is_scanner_write e = true) evs.
Proof.
  unfold check_email_for_tickers.
  induction contents as [|c contents IH]; intros st.
  - exists []. rewrite app_nil_r. split; [reflexivity|constructor].
  - cbn [fold_left]. destruct (nonempty (extract_ticker_symbols c)); [|apply IH].
    destruct (IH (update_scanner_file (extract_ticker_symbols c) st)) as (evs & -> & Hall).
    eexists (_ :: evs). cbn [update_scanner_file write_scanner log trace].
    rewrite <- app_assoc. split; [reflexivity|]. constructor; [reflexivity|exact Hall].
Qed.

Lemma trace_reload_positions snapshot st :
  trace (reload_positions snapshot st) = trace st.
Proof. unfold reload_positions. destruct snapshot; reflexivity. Qed.

Lemma fetched_not_scanner_write s evs :
  Forall (fun e => is_scanner_write e = true) evs -> Fetched s ∉ evs.
Proof.
  intros Hall Hin. rewrite Forall_forall in Hall. specialize (Hall _ Hin). discriminate.
Qed.

(** What a cycle does to the open positions and to the watchlist, and
    what it downloads. *)
Lemma cycle_anatomy `{SetOrder} (market : @market_oracle F) (input : cycle_input)
    (st0 : state) :
  let st1 := check_email_for_tickers (mails input)
               (reload_positions (positions_snapshot input) st0) in
  let held := held_after input (open_positions st0) in
  let selected := get_first_ticker_from_scanner st1 in
  open_positions (cycle market input st0) = held /\
  (exists dropped,
     Forall (fun t => t ∈ held) dropped /\
     trace (snd selected) =
       trace st1 ++ removal_events dropped (default [] (scanner st1)) /\
     scanner (snd selected) = fmap (remaining dropped) (scanner st1)) /\
  (forall evs s, trace (cycle market input st0) = trace st0 ++ evs ->
     Fetched s ∈ evs -> fst selected = Some s /\ s ∉ held) /\
  (forall s, s ∈ _get_watchlist_symbols (cycle market input st0) ->
     s ∉ _get_watchlist_symbols st0 ->
     fst selected = Some s /\ (s ∉ held) /\
     fst (fst (validate_ema_criteria market s (snd selected))) = true).
Proof.
  intros st1 held selected.
  destruct (reload_positions_frame (positions_snapshot input) st0) as [Hw0 Hop0].
  destruct (check_email_frame (mails input)
              (reload_positions (positions_snapshot input) st0)) as [Hop1 Hw1].
  fold st1 in Hop1, Hw1.
  assert (Hheld : open_positions st1 = held) by (unfold held, held_after; congruence).
  assert (Hwl : _get_watchlist_symbols st1 = _get_watchlist_symbols st0)
    by (apply get_watchlist_symbols_ext; congruence).
  destruct (check_email_trace (mails input)
              (reload_positions (positions_snapshot input) st0)) as (mail_evs & Htr1 & Hmail).
  fold st1 in Htr1. rewrite trace_reload_positions in Htr1.
  change (cycle market input st0) with (process_next_ticker market st1).
  destruct (process_next_ticker_anatomy market st1)
    as (dropped & fetches & writes & Hdropped & Htrsel & Hscsel & Htr & Hcase).
  fold selected in Htrsel, Hscsel, Hcase. rewrite Hheld in Hdropped.
  split.
  { destruct (process_next_ticker_watchlist market st1) as [-> _]. exact Hheld. }
  split; [exists dropped; auto|].
  split.
  - intros evs s Hevs Hin.
    rewrite Htr, Htr1, <- app_assoc in Hevs. apply app_inv_head in Hevs. subst evs.
    apply elem_of_app in Hin as [Hin|Hin];
      [exfalso; exact (fetched_not_scanner_write _ _ Hmail Hin)|].
    apply elem_of_app in Hin as [Hin|Hin];
      [exfalso; exact (fetched_not_scanner_write _ _ (removal_events_writes _ _) Hin)|].
    destruct (fst selected) as [ticker|].
    2:{ destruct Hcase as (-> & -> & _). apply elem_of_nil in Hin. contradiction. }
    destruct Hcase as (Hfree & _ & Hall & _ & (appended & -> & Happ & _) & _).
    rewrite Hheld in Hfree.
    apply elem_of_app in Hin as [Hin|Hin].
    + rewrite Forall_forall in Hall. specialize (Hall _ Hin).
      injection Hall as ->. auto.
    + exfalso. apply elem_of_app in Hin as [Hin|Hin].
      * destruct Happ as [->|[low ->]]; [apply elem_of_nil in Hin; exact Hin|].
        apply list_elem_of_singleton in Hin. discriminate.
      * apply list_elem_of_singleton in Hin. discriminate.
  - intros s Hs Hnew.
    destruct (fst selected) as [ticker|].
    2:{ destruct Hcase as (_ & _ & Hsame). rewrite Hsame, Hwl in Hs. contradiction. }
    destruct Hcase as (Hfree & _ & _ & _ & _ & Hsyms).
    rewrite Hheld in Hfree. rewrite Hsyms, Hwl in Hs.
    destruct (fst (fst (validate_ema_criteria market ticker (snd selected)))) eqn:Hvalid;
      [|contradiction].
    apply elem_of_union in Hs as [Hs|Hs]; [contradiction|].
    apply elem_of_singleton in Hs. subst s. rewrite Hvalid. auto.
Qed.

(** C1, as amended: in a cycle the only symbol that can come onto the
    watchlist is the scanner entry the cycle selected, once its validation
    has accepted it, and that entry is not among the open positions loaded
    for the cycle; the entries the selection takes out of the scanner file
    are those of open positions, and every download of the cycle is for
    the selected entry, so an open position is dropped without being
    validated.  Hence, if the watchlist shares no symbol with the open
    positions at the start and no symbol enters the open positions while
    it is on the watchlist, the two share no symbol after any number of
    cycles. *)
Theorem watchlist_avoids_open_positions `{SetOrder} (market : @market_oracle F)
    (inputs : list cycle_input) (st : state) :
  none_listed_becomes_held market inputs st ->
  _get_watchlist_symbols st ## open_positions st ->
  _get_watchlist_symbols (run_cycles market inputs st)
    ## open_positions (run_cycles market inputs st)
  /\ forall input st0,
       let st1 := check_email_for_tickers (mails input)
                    (reload_positions (positions_snapshot input) st0) in
       let held := held_after input (open_positions st0) in
       let selected := get_first_ticker_from_scanner st1 in
       open_positions (cycle market input st0) = held /\
       (exists dropped,
          Forall (fun t => t ∈ held) dropped /\
          trace (snd selected) =
            trace st1 ++ removal_events dropped (default [] (scanner st1)) /\
          scanner (snd selected) = fmap (remaining dropped) (scanner st1)) /\
       (forall evs s, trace (cycle market input st0) = trace st0 ++ evs ->
          Fetched s ∈ evs -> fst selected = Some s /\ s ∉ held) /\
       (forall s, s ∈ _get_watchlist_symbols (cycle market input st0) ->
          s ∉ _get_watchlist_symbols st0 ->
          fst selected = Some s /\ (s ∉ held) /\
          fst (fst (validate_ema_criteria market s (snd selected))) = true).
Proof.
  intros Henv Hdisj. split; [|intros input st0; apply cycle_anatomy].
  unfold run_cycles. revert st Henv Hdisj.
  induction inputs as [|input inputs IH]; intros st Henv Hdisj; [exact Hdisj|].
  cbn [fold_left]. cbn [none_listed_becomes_held] in Henv. destruct Henv as [Hnew Henv].
  destruct (cycle_anatomy market input st) as (Hop & _ & _ & Hadd).
  apply IH; [exact Henv|].
  intros s Hs Hheld. rewrite Hop in Hheld.
  destruct (decide (s ∈ _get_watchlist_symbols st)) as [Hold|Hfresh].
  - destruct (decide (s ∈ open_positions st)) as [Hwas|Hnot].
    + exact (Hdisj s Hold Hwas).
    + exact (Hnew s Hheld Hnot Hold).
  - destruct (Hadd s Hs Hfresh) as (_ & Hfree & _). exact (Hfree Hheld).
Qed.

End Cycle.

(** * Order of the effects, and the scenarios *)

Section Order.
Import Screener.
Context {F : Type} `{FloatOps F}.

Lemma is_scanner_write_queue_write e : is_scanner_write e = true -> is_queue_write e = true.
Proof. destruct e; cbn; congruence. Qed.

Lemma add_to_watchlist_step symbol (low : F) st :
  exists evs, trace (add_to_watchlist symbol low st) = trace st ++ evs /\
              Forall (fun e => is_queue_write e = true) evs /\
              openpositions (add_to_watchlist symbol low st) = openpositions st.
Proof.
  unfold add_to_watchlist. destruct (bool_decide _).
  - exists []. rewrite app_nil_r. repeat split. constructor.
  - eexists [_]. repeat split. repeat constructor.
Qed.

(** C10, as amended: validation changes none of the three files (it only
    downloads).  The trace of one pass over the scanner is: the removals of
    open positions from the scanner file made while the ticker is selected,
    each rewriting the file without the lines of one open position; then,
    if a ticker was selected, the downloads of its validation, at least
    one; and only then, after the validation has returned, the writes for
    the selected ticker, a line appended to the watchlist (none if the
    validation rejected it) and its removal from the scanner file.  The
    open-positions file is never written. *)
Theorem validation_is_read_only (market : @market_oracle F) (st : state) :
  (forall symbol,
     let st' := snd (validate_ema_criteria market symbol st) in
     scanner st' = scanner st /\ watchlist st' = watchlist st /\
     openpositions st' = openpositions st /\
     exists fetches, trace st' = trace st ++ fetches /\
                     Forall (fun e => e = Fetched symbol) fetches)
  /\ openpositions (process_next_ticker market st) = openpositions st
  /\ exists dropped fetches writes,
       let cur := default [] (scanner st) in
       let selected := get_first_ticker_from_scanner st in
       Forall (fun t => t ∈ open_positions st) dropped /\
       trace (snd selected) = trace st ++ removal_events dropped cur /\
       trace (process_next_ticker market st) =
         trace st ++ removal_events dropped cur ++ fetches ++ writes /\
       match fst selected with
       | None => fetches = [] /\ writes = []
       | Some ticker =>
           let validated := validate_ema_criteria market ticker (snd selected) in
           (ticker ∉ open_positions st) /\
           fetches <> [] /\ Forall (fun e => e = Fetched ticker) fetches /\
           trace (snd validated) = trace st ++ removal_events dropped cur ++ fetches /\
           exists appended,
             writes = appended ++
                      [ScannerWritten (filter (fun line => keeps ticker line)
                                         (remaining dropped cur))] /\
             (appended = [] \/
              exists low : F, appended = [WatchlistAppended (watchlist_line ticker low)]) /\
             (fst (fst validated) = false -> appended = [])
       end.
Proof.
  split.
  { intros symbol st'. subst st'.
    destruct (validate_ema_criteria market symbol st) as [r st'] eqn:Hval.
    apply validate_step in Hval as (evs & (Hsc & _ & Hw & Hpos & Htr) & Hev).
    cbn [snd]. eauto 10. }
  split.
  { unfold process_next_ticker.
    destruct (get_first_ticker_from_scanner st) as [[ticker|] st1] eqn:Hsel.
    2:{ apply get_first_ticker_step in Hsel as (evs & (_ & _ & Hpos & _) & _). exact Hpos. }
    apply get_first_ticker_step in Hsel as (drops & (_ & _ & Hpos1 & _) & _).
    destruct (validate_ema_criteria market ticker st1) as [[valid vals] st2] eqn:Hval.
    apply validate_step in Hval as (fetches & (_ & _ & _ & Hpos2 & _) & _).
    destruct valid.
    - destruct (add_to_watchlist_step ticker
                  (match vals with Some v => low_price v | None => float_of_nat 0 end) st2)
        as (w1 & _ & _ & Hpos3).
      destruct (remove_ticker_step ticker
                  (add_to_watchlist ticker
                     (match vals with Some v => low_price v | None => float_of_nat 0 end) st2))
        as (w2 & (_ & _ & Hpos4 & _) & _).
      congruence.
    - destruct (remove_ticker_step ticker st2) as (w2 & (_ & _ & Hpos4 & _) & _).
      congruence. }
  destruct (process_next_ticker_anatomy market st)
    as (dropped & fetches & writes & Hdropped & Htrsel & _ & Htr & Hcase).
  exists dropped, fetches, writes. cbn zeta.
  split; [exact Hdropped|]. split; [exact Htrsel|]. split; [exact Htr|].
  destruct (fst (get_first_ticker_from_scanner st)) as [ticker|].
  - destruct Hcase as (Hfree & Hne & Hall & Hval & Hwrites & _). auto.
  - destruct Hcase as (-> & -> & _). auto.
Qed.

End Order.

(** C10, as stated, fails: with AAPL held and queued before MSFT, the
    scanner file is rewritten (AAPL dropped) before MSFT is downloaded. *)
Lemma scanner_written_before_validation :
  let market : Screener.market_oracle := fun _ _ => Screener.Frame (breakout 1) in
  let st := {| Screener.open_positions := {[ txt "AAPL" ]};
               Screener.scanner := Some [txt "AAPL"; txt "MSFT"];
               Screener.watchlist := Some []; Screener.openpositions := Some [txt "AAPL"];
               Screener.trace := [] |} in
  Screener.trace (Screener.process_next_ticker market st) =
    [ Screener.ScannerWritten [txt "MSFT"]; Screener.Fetched (txt "MSFT");
      Screener.WatchlistAppended (txt "MSFT 1.00"); Screener.ScannerWritten [] ] /\
  ~ Screener.writes_follow_fetches (Screener.trace (Screener.process_next_ticker market st)).
Proof.
  intros market st.
  assert (E : Screener.trace (Screener.process_next_ticker market st) =
    [ Screener.ScannerWritten [txt "MSFT"]; Screener.Fetched (txt "MSFT");
      Screener.WatchlistAppended (txt "MSFT 1.00"); Screener.ScannerWritten [] ])
    by (vm_compute; reflexivity).
  split; [exact E|]. rewrite E. intros Hord.
  specialize (Hord 0 1 _ _ eq_refl eq_refl eq_refl eq_refl). lia.
Qed.

(** C5: with AAPL both queued and held, one pass empties the scanner file,
    leaves the watchlist empty and downloads nothing. *)
Theorem held_ticker_is_dropped {F : Type} `{FloatOps F}
    (market : @Screener.market_oracle F) (pos : option (list str))
    (tr : list Screener.event) :
  let st := {| Screener.open_positions := {[ txt "AAPL" ]};
               Screener.scanner := Some [txt "AAPL"];
               Screener.watchlist := Some []; Screener.openpositions := pos;
               Screener.trace := tr |} in
  let st' := Screener.process_next_ticker market st in
  Screener.scanner st' = Some [] /\ Screener.watchlist st' = Some [] /\
  Screener.trace st' = tr ++ [Screener.ScannerWritten []] /\
  Screener.fetch_count st' = Screener.fetch_count st.
Proof.
  intros st st'.
  assert (E : st' = Screener.write_scanner [] st).
  { subst st' st. unfold Screener.process_next_ticker, Screener.get_first_ticker_from_scanner.
    cbn [Screener.scanner Screener.first_ticker_scan].
    change (strip (txt "AAPL")) with (txt "AAPL").
    change (Screener.nonempty (txt "AAPL")) with true. cbn [negb].
    change (upper (Screener.first (split (txt "AAPL")))) with (txt "AAPL").
    cbn [Screener.open_positions].
    rewrite bool_decide_eq_true_2 by (apply elem_of_singleton; reflexivity).
    reflexivity. }
  rewrite E. repeat split.
  unfold Screener.fetch_count. cbn [Screener.write_scanner Screener.log Screener.trace].
  rewrite filter_app. cbn. rewrite app_nil_r. reflexivity.
Qed.

(** C1, as stated, fails: AAPL is put on the watchlist in a cycle in which
    it is not held; when it is held at the next cycle it is still there. *)
Lemma watchlist_keeps_new_position :
  let market : Screener.market_oracle := fun _ _ => Screener.Frame (breakout 1) in
  let st' :=
    Screener.run_cycles market
      [ {| Screener.positions_snapshot := Some []; Screener.mails := [] |};
        {| Screener.positions_snapshot := Some [txt "AAPL"]; Screener.mails := [] |} ]
      (one_queued "AAPL") in
  Screener._get_watchlist_symbols (one_queued "AAPL") = ∅ /\
  Screener.watchlist st' = Some [txt "AAPL 1.00"] /\
  txt "AAPL" ∈ Screener._get_watchlist_symbols st' /\
  txt "AAPL" ∈ Screener.open_positions st' /\
  ~ (Screener._get_watchlist_symbols st' ## Screener.open_positions st').
Proof.
  intros market st'.
  assert (Hw : txt "AAPL" ∈ Screener._get_watchlist_symbols st')
    by (apply (bool_decide_unpack _); vm_compute; exact I).
  assert (Hp : txt "AAPL" ∈ Screener.open_positions st')
    by (apply (bool_decide_unpack _); vm_compute; exact I).
  split; [reflexivity|]. split; [vm_compute; reflexivity|].
  split; [exact Hw|]. split; [exact Hp|].
  intros Hdisj. exact (Hdisj _ Hw Hp).
Qed.

Lemma watchlist_avoids_open_positions_witness :
  let market : Screener.market_oracle := fun _ _ => Screener.Frame (breakout 1) in
  let inputs :=
    [ {| Screener.positions_snapshot := Some [txt "MSFT"]; Screener.mails := [txt "BBAuto: GO"] |};
      {| Screener.positions_snapshot := Some [txt "MSFT"; txt "IBM"]; Screener.mails := [] |} ] in
  let st := {| Screener.open_positions := ∅;
               Screener.scanner := Some [txt "MSFT"; txt "AAPL"];
               Screener.watchlist := Some []; Screener.openpositions := None;
               Screener.trace := [] |} in
  Screener.watchlist (Screener.run_cycles market inputs st)
    = Some [txt "AAPL 1.00"; txt "GO 1.00"] /\
  Screener._get_watchlist_symbols (Screener.run_cycles market inputs st)
    ## Screener.open_positions (Screener.run_cycles market inputs st).
Proof.
  intros market inputs st. split; [vm_compute; reflexivity|].
  apply (watchlist_avoids_open_positions market inputs st).
  - cbn [Screener.none_listed_becomes_held inputs]. split; [|split; [|exact I]].
    + intros s _ _ Hs. apply elem_of_empty in Hs. exact Hs.
    + assert (Hw : Screener._get_watchlist_symbols
                     (Screener.cycle market
                        {| Screener.positions_snapshot := Some [txt "MSFT"];
                           Screener.mails := [txt "BBAuto: GO"] |} st)
                   = {[ txt "AAPL" ]}) by (vm_compute; reflexivity).
      rewrite Hw. intros s Hheld _ ->%elem_of_singleton.
      revert Hheld. apply (bool_decide_unpack _). vm_compute. exact I.
  - intros x Hx. apply elem_of_empty in Hx. contradiction.
Defined.

(** * The order sweep *)

Section Sweep.
Import Main.
Context {F : Type} `{FloatOps F}.

Lemma order_of_entry_strip line : order_of_entry (F:=F) (strip line) = order_of_entry line.
Proof. unfold order_of_entry. rewrite split_strip. reflexivity. Qed.

Lemma total_pause_cons a l : total_pause (a :: l) = pause_after (snd a) + total_pause l.
Proof. reflexivity. Qed.

(** The loop body, entry by entry: a line of fewer than two tokens is
    skipped; an entry whose price cannot be read is reported without an
    order; any other entry is submitted once, and the report and the pause
    follow from the broker's answer. *)
Lemma process_line_entry (broker : broker_oracle) (sw : sweep) (line : str) :
  process_line (F:=F) broker sw line =
    if 2 <=? length (split line) then
      match order_of_entry (strip line) with
      | None => attempted (strip line) MalformedPrice 10 [] sw
      | Some o =>
          let out := outcome_of (broker (length (orders sw)) o) in
          attempted (strip line) out (pause_after out) [o] sw
      end
    else sw.
Proof.
  unfold process_line, order_of_entry. rewrite !split_strip.
  destruct (Screener.nonempty (strip line)) eqn:Hne; cbn [negb].
  2:{ assert (E : split line = []).
      { apply strip_nil_iff. destruct (strip line); [reflexivity|discriminate]. }
      rewrite E. reflexivity. }
  destruct (length (split line) <? 2) eqn:Hlt.
  - apply Nat.ltb_lt in Hlt.
    replace (2 <=? length (split line)) with false by (symmetry; apply Nat.leb_gt; lia).
    reflexivity.
  - apply Nat.ltb_ge in Hlt.
    replace (2 <=? length (split line)) with true by (symmetry; apply Nat.leb_le; lia).
    destruct (float_of_str (nth 1 (split line) [])) as [limit_price|]; [|reflexivity].
    cbn zeta. destruct (broker _ _) as [status_code location| |]; cbn [outcome_of].
    + destruct (bool_decide _); reflexivity.
    + reflexivity.
    + reflexivity.
Qed.

Lemma fold_process_line (broker : broker_oracle) (lines : list str) : forall sw,
  watchlist_file (fold_left (process_line (F:=F) broker) lines sw) = watchlist_file sw /\
  attempts (fold_left (process_line (F:=F) broker) lines sw) =
    attempts sw ++
    expected_attempts (F:=F) broker (length (orders sw)) (map strip (entries lines)) /\
  orders (fold_left (process_line (F:=F) broker) lines sw) =
    orders sw ++ omap order_of_entry (map strip (entries lines)) /\
  slept (fold_left (process_line (F:=F) broker) lines sw) =
    slept sw +
    total_pause
      (expected_attempts (F:=F) broker (length (orders sw)) (map strip (entries lines))).
Proof.
  induction lines as [|line lines IH]; intros sw.
  - cbn [fold_left entries map omap expected_attempts filter list_filter].
    rewrite !app_nil_r. unfold total_pause. cbn. auto with lia.
  - cbn [fold_left].
    destruct (IH (process_line broker sw line)) as (Hw & Ha & Ho & Hs).
    rewrite Hw, Ha, Ho, Hs. clear IH Hw Ha Ho Hs.
    rewrite process_line_entry. unfold entries. rewrite filter_cons.
    destruct (2 <=? length (split line)).
    2:{ rewrite decide_False by (intros []). auto. }
    rewrite decide_True by exact I. cbn [map expected_attempts].
    change (omap order_of_entry (strip line :: ?l))
      with (match order_of_entry (F:=F) (strip line) with
            | Some o => o :: omap order_of_entry l
            | None => omap order_of_entry l
            end).
    destruct (order_of_entry (strip line)) as [o|];
      cbn zeta; cbn [attempted watchlist_file attempts orders slept].
    + rewrite length_app. cbn [length]. rewrite Nat.add_1_r.
      rewrite <- !app_assoc. cbn [app].
      rewrite total_pause_cons. cbn [snd].
      repeat split; lia.
    + rewrite app_nil_r, <- !app_assoc. cbn [app].
      rewrite total_pause_cons. cbn [snd pause_after is_placed].
      repeat split; lia.
Qed.

(** What a sweep over the lines of a watchlist file leaves behind. *)
Lemma sweep_spec (broker : broker_oracle) (lines : list str) :
  watchlist_file (process_watchlist_orders (F:=F) broker (Some lines)) = Some [] /\
  attempts (process_watchlist_orders (F:=F) broker (Some lines)) =
    expected_attempts (F:=F) broker 0 (map strip (entries lines)) /\
  orders (process_watchlist_orders (F:=F) broker (Some lines)) =
    omap order_of_entry (map strip (entries lines)) /\
  slept (process_watchlist_orders (F:=F) broker (Some lines)) =
    total_pause (attempts (process_watchlist_orders (F:=F) broker (Some lines))).
Proof.
  unfold process_watchlist_orders.
  destruct lines as [|line lines]; [repeat split|].
  cbn [watchlist_file attempts orders slept].
  destruct (fold_process_line broker (line :: lines)
              {| watchlist_file := Some (line :: lines); attempts := [];
                 orders := []; slept := 0 |}) as (_ & Ha & Ho & Hs).
  cbn [attempts orders slept app length] in Ha, Ho, Hs.
  rewrite Ha, Ho, Hs. auto.
Qed.

Lemma expected_attempts_entries (broker : broker_oracle) (es : list str) : forall k,
  map fst (expected_attempts (F:=F) broker k es) = es.
Proof.
  induction es as [|e es IH]; intros k; [reflexivity|].
  cbn [expected_attempts]. destruct (order_of_entry e); cbn [map fst]; rewrite IH; reflexivity.
Qed.

(** C2: a sweep over a watchlist file attempts each of its entries once, in
    order, so a file of N entries gives N attempts; an entry whose price
    can be read is submitted to the broker as one order and the outcome
    recorded for it is the one of the broker's answer (placed, rejected, or
    an error raised by the call), an entry whose price cannot be read is
    recorded as malformed without an order; the file is empty afterwards. *)
Theorem sweep_attempts_each_entry_once (broker : broker_oracle) (lines : list str) :
  let sw := process_watchlist_orders (F:=F) broker (Some lines) in
  watchlist_file sw = Some [] /\
  map fst (attempts sw) = map strip (entries lines) /\
  length (attempts sw) = length (entries lines) /\
  attempts sw = expected_attempts (F:=F) broker 0 (map strip (entries lines)) /\
  orders sw = omap order_of_entry (map strip (entries lines)).
Proof.
  intros sw. destruct (sweep_spec broker lines) as (Hw & Ha & Ho & _).
  fold sw in Hw, Ha, Ho.
  assert (Hatt : map fst (attempts sw) = map strip (entries lines))
    by (rewrite Ha; apply expected_attempts_entries).
  repeat split; try assumption.
  apply (f_equal (@length str)) in Hatt. rewrite !length_map in Hatt. exact Hatt.
Qed.

End Sweep.

Example sweep_demo :
  let broker : Main.broker_oracle :=
    fun n _ => match n with
               | 0 => Main.Response 201 (Some (txt "orders/77"))
               | 1 => Main.Response 400 None
               | 2 => Main.Raised
               | _ => Main.RaisedValueError
               end in
  let sw := Main.process_watchlist_orders broker
              (Some [txt "AAPL 1.00"; txt ""; txt "MSFT"; txt " go 2.50 "; txt "IBM x";
                     txt "F 3"; txt "T 4"]) in
  Main.attempts sw =
    [ (txt "AAPL 1.00", Main.Placed (txt "orders/77"));
      (txt "go 2.50", Main.Rejected 400);
      (txt "IBM x", Main.MalformedPrice);
      (txt "F 3", Main.TransportError);
      (txt "T 4", Main.MalformedPrice) ]
  /\ length (Main.orders sw) = 4
  /\ Main.watchlist_file sw = Some [] /\ Main.slept sw = 43.
Proof. vm_compute. repeat split. Qed.

(** * Beyond the claims: the queues, the downloads, the sweep *)

(** * The queues as sets of symbols *)

Section QueueSets.
Import Screener.
Context {F : Type} `{FloatOps F}.

Lemma nonempty_strip_split line : nonempty (strip line) = nonempty (split line).
Proof.
  destruct (split line) as [|t ts] eqn:E.
  - apply strip_nil_iff in E. rewrite E. reflexivity.
  - destruct (strip line) eqn:Es; [|reflexivity].
    apply strip_nil_iff in Es. congruence.
Qed.

Lemma elem_of_load_symbols x lines :
  x ∈ _load_symbols lines <->
  exists line, line ∈ lines /\ split line <> [] /\ x = upper (first (split line)).
Proof.
  unfold _load_symbols. rewrite elem_of_list_to_set, list_elem_of_fmap. split.
  - intros (line & -> & Hin). apply list_elem_of_filter in Hin as [Hp Hin].
    exists line. repeat split; auto.
    apply Is_true_true, andb_true_iff in Hp as [_ Hp].
    destruct (split line); [discriminate|discriminate].
  - intros (line & Hin & Hne & ->). exists line. split; [reflexivity|].
    apply list_elem_of_filter. split; [|exact Hin].
    rewrite nonempty_strip_split. destruct (split line); [congruence|exact I].
Qed.

Lemma load_symbols_clean x lines : x ∈ _load_symbols lines -> clean x.
Proof.
  intros (line & _ & Hne & ->)%elem_of_load_symbols. apply first_token_clean, Hne.
Qed.

Lemma keeps_spec ticker line :
  keeps ticker line = true <->
  split line <> [] /\ upper (first (split line)) <> upper ticker.
Proof.
  unfold keeps. rewrite split_strip, nonempty_strip_split, andb_true_iff,
    negb_true_iff, bool_decide_eq_false.
  destruct (split line); cbn; split; intros [? ?]; split; auto; congruence.
Qed.

(** Removing a ticker takes exactly that symbol out of the set. *)
Lemma load_symbols_filter_keeps ticker lines :
  _load_symbols (filter (fun line => keeps ticker line) lines) =
    _load_symbols lines ∖ {[ upper ticker ]}.
Proof.
  apply set_eq. intros x.
  rewrite elem_of_difference, elem_of_singleton, !elem_of_load_symbols. split.
  - intros (line & Hin & Hne & ->). apply list_elem_of_filter in Hin as [Hk Hin].
    apply Is_true_true, keeps_spec in Hk as [_ Hk]. split; [eauto|exact Hk].
  - intros [(line & Hin & Hne & ->) Hx]. exists line. repeat split; auto.
    apply list_elem_of_filter. split; [|exact Hin].
    apply Is_true_true, keeps_spec. auto.
Qed.

Lemma scanner_symbols_remove ticker st :
  scanner_symbols (_remove_ticker_from_scanner ticker st) =
    scanner_symbols st ∖ {[ upper ticker ]}.
Proof.
  unfold scanner_symbols, _remove_ticker_from_scanner.
  destruct (scanner st) as [lines|] eqn:E.
  - cbn [scanner write_scanner log]. apply load_symbols_filter_keeps.
  - rewrite E. apply set_eq. intros x.
    rewrite elem_of_difference. split; [intros []%elem_of_empty|intros [[]%elem_of_empty _]].
Qed.

(** X1: at the level of symbols, [_remove_ticker_from_scanner] removes the
    given symbol (whatever its case) and nothing else; it never creates the
    file. *)
Theorem remove_ticker_symbols (ticker : str) (st : state) :
  scanner_symbols (_remove_ticker_from_scanner ticker st) =
    scanner_symbols st ∖ {[ upper ticker ]}
  /\ (scanner (_remove_ticker_from_scanner ticker st) = None <-> scanner st = None).
Proof.
  split; [apply scanner_symbols_remove|].
  unfold _remove_ticker_from_scanner.
  destruct (scanner st) as [lines|] eqn:E; cbn [scanner write_scanner log].
  - split; discriminate.
  - rewrite E. tauto.
Qed.

(** The scan over the lines read at opening: what it takes out of the file
    are open positions; a ticker it returns is not one; when it returns
    nothing, no symbol of the lines read is left in the file. *)
Lemma first_ticker_scan_symbols lines : forall st r st',
  first_ticker_scan lines st = (r, st') ->
  scanner_symbols st' ⊆ scanner_symbols st /\
  scanner_symbols st ∖ scanner_symbols st' ⊆ open_positions st /\
  match r with
  | Some ticker => ticker ∈ _load_symbols lines /\ ticker ∉ open_positions st
  | None => _load_symbols lines ## scanner_symbols st'
  end.
Proof.
  induction lines as [|line rest IH]; intros st r st' E; cbn [first_ticker_scan] in E.
  - injection E as <- <-. split; [reflexivity|]. split.
    + intros x [Hx Hn]%elem_of_difference. contradiction.
    + intros x Hx. apply elem_of_load_symbols in Hx as (l & []%elem_of_nil & _).
  - destruct (nonempty (strip line)) eqn:Hne; cbn [negb] in E.
    2:{ destruct (IH _ _ _ E) as (Hsub & Hheld & Hr). split; [exact Hsub|].
        split; [exact Hheld|].
        assert (Hload : _load_symbols (line :: rest) = _load_symbols rest).
        { unfold _load_symbols. rewrite filter_cons, Hne. cbn [andb].
          rewrite decide_False by (intros []). reflexivity. }
        rewrite Hload. exact Hr. }
    assert (Hsplit : split line <> []).
    { intros Hs. apply strip_nil_iff in Hs. rewrite Hs in Hne. discriminate. }
    assert (Hhead : upper (first (split (strip line))) ∈ _load_symbols (line :: rest)).
    { apply elem_of_load_symbols. exists line. rewrite split_strip.
      repeat split; auto. left. }
    assert (Hcons : forall x, x ∈ _load_symbols (line :: rest) ->
                              x = upper (first (split (strip line))) \/ x ∈ _load_symbols rest).
    { intros x (l & Hin & Hl & ->)%elem_of_load_symbols.
      apply elem_of_cons in Hin as [->|Hin].
      - left. rewrite split_strip. reflexivity.
      - right. apply elem_of_load_symbols. eauto. }
    assert (Hup : upper (upper (first (split (strip line)))) =
                  upper (first (split (strip line)))) by apply upper_idem.
    set (ticker := upper (first (split (strip line)))) in *. clearbody ticker.
    destruct (bool_decide (ticker ∈ open_positions st)) eqn:Hin.
    + apply bool_decide_eq_true in Hin.
      destruct (IH _ _ _ E) as (Hsub & Hheld & Hr).
      rewrite scanner_symbols_remove in Hsub, Hheld.
      rewrite open_positions_remove_ticker in Hheld, Hr.
      rewrite Hup in Hsub, Hheld.
      split; [intros x Hx; apply Hsub, elem_of_difference in Hx as [Hx _]; exact Hx|].
      split.
      * intros x [Hx Hn]%elem_of_difference.
        destruct (decide (x = ticker)) as [->|Hne']; [exact Hin|].
        apply Hheld. apply elem_of_difference. split; [|exact Hn].
        apply elem_of_difference. split; [exact Hx|].
        rewrite elem_of_singleton. exact Hne'.
      * destruct r as [t|].
        -- destruct Hr as [Ht Hfree]. split; [|exact Hfree].
           apply elem_of_load_symbols in Ht as (l & Hl & Hls & ->).
           apply elem_of_load_symbols. exists l. repeat split; auto. right. exact Hl.
        -- intros x Hx Hx'. destruct (Hcons x Hx) as [->|Hrest].
           ++ apply Hsub, elem_of_difference in Hx' as [_ Hx'].
              apply Hx', elem_of_singleton. reflexivity.
           ++ exact (Hr x Hrest Hx').
    + apply bool_decide_eq_false in Hin. injection E as <- <-.
      split; [reflexivity|].
      split; [intros x [Hx Hn]%elem_of_difference; contradiction|].
      split; [exact Hhead|exact Hin].
Qed.

Lemma get_first_ticker_symbols (st : state) :
  let r := fst (get_first_ticker_from_scanner st) in
  let st' := snd (get_first_ticker_from_scanner st) in
  scanner_symbols st' ⊆ scanner_symbols st /\
  scanner_symbols st ∖ scanner_symbols st' ⊆ open_positions st /\
  match r with
  | Some ticker => ticker ∈ scanner_symbols st' /\ ticker ∉ open_positions st
  | None => scanner_symbols st' = ∅
  end.
Proof.
  cbn zeta. unfold get_first_ticker_from_scanner.
  destruct (scanner st) as [lines|] eqn:Hsc.
  - destruct (first_ticker_scan lines st) as [r st'] eqn:E. cbn [fst snd].
    destruct (first_ticker_scan_symbols lines st r st' E) as (Hsub & Hheld & Hr).
    split; [exact Hsub|]. split; [exact Hheld|].
    assert (Hst : scanner_symbols st = _load_symbols lines)
      by (unfold scanner_symbols; rewrite Hsc; reflexivity).
    destruct r as [t|].
    + destruct Hr as [Ht Hfree]. split; [|exact Hfree].
      destruct (decide (t ∈ scanner_symbols st')) as [|Hout]; [assumption|].
      exfalso. apply Hfree, Hheld, elem_of_difference.
      split; [rewrite Hst; exact Ht|exact Hout].
    + apply set_eq. intros x. split; [|intros []%elem_of_empty].
      intros Hx. exfalso. apply (Hr x); [|exact Hx]. rewrite <- Hst. apply Hsub, Hx.
  - cbn [fst snd]. unfold scanner_symbols. rewrite Hsc.
    split; [reflexivity|].
    split; [intros x [[]%elem_of_empty _]%elem_of_difference|reflexivity].
Qed.


Lemma scanner_symbols_ext st st' :
  scanner st' = scanner st -> scanner_symbols st' = scanner_symbols st.
Proof. unfold scanner_symbols. intros ->. reflexivity. Qed.

(** One pass never brings a symbol into the scanner file, and takes one
    out whenever there is one. *)
Lemma process_next_ticker_symbols (market : @market_oracle F) st :
  scanner_symbols (process_next_ticker market st) ⊆ scanner_symbols st /\
  (scanner_symbols st <> ∅ ->
   exists x, x ∈ scanner_symbols st /\ x ∉ scanner_symbols (process_next_ticker market st)).
Proof.
  pose proof (get_first_ticker_symbols st) as Hsel. cbn zeta in Hsel.
  unfold process_next_ticker.
  destruct (get_first_ticker_from_scanner st) as [[ticker|] st1] eqn:E;
    cbn [fst snd] in Hsel; destruct Hsel as (Hsub & Hheld & Hr).
  2:{ split; [exact Hsub|]. intros Hne. rewrite Hr.
      apply set_choose_L in Hne as [x Hx]. exists x. split; [exact Hx|].
      apply not_elem_of_empty. }
  destruct Hr as [Hin Hfree].
  pose proof (load_symbols_clean ticker) as Hclean.
  assert (Hup : upper ticker = ticker).
  { unfold scanner_symbols in Hin. destruct (scanner st1); [|apply elem_of_empty in Hin as []].
    apply (Hclean _ Hin). }
  destruct (validate_ema_criteria market ticker st1) as [[valid vals] st2] eqn:Hval.
  apply validate_step in Hval as (evs & (Hsc & _) & _).
  assert (Hafter : forall st3, scanner st3 = scanner st2 ->
            scanner_symbols (_remove_ticker_from_scanner ticker st3) =
              scanner_symbols st1 ∖ {[ ticker ]}).
  { intros st3 Hst3. rewrite scanner_symbols_remove, Hup.
    rewrite (scanner_symbols_ext st1 st3) by congruence. reflexivity. }
  assert (Hgoal : forall st3, scanner st3 = scanner st2 ->
            scanner_symbols (_remove_ticker_from_scanner ticker st3) ⊆ scanner_symbols st /\
            (scanner_symbols st <> ∅ ->
             exists x, x ∈ scanner_symbols st /\
                       x ∉ scanner_symbols (_remove_ticker_from_scanner ticker st3))).
  { intros st3 Hst3. rewrite (Hafter st3 Hst3). split.
    - intros x [Hx _]%elem_of_difference. apply Hsub, Hx.
    - intros _. exists ticker. split; [apply Hsub, Hin|].
      intros [_ Hn]%elem_of_difference. apply Hn, elem_of_singleton. reflexivity. }
  destruct valid; apply Hgoal; [apply scanner_add_to_watchlist|reflexivity].
Qed.

(** X3: a pass over a scanner file that holds a symbol leaves it with
    strictly fewer symbols: the ticker processed, or the open positions
    dropped, are gone and nothing comes in. *)
Theorem process_next_ticker_shrinks (market : @market_oracle F) (st : state) :
  scanner_symbols st <> ∅ ->
  scanner_symbols (process_next_ticker market st) ⊂ scanner_symbols st.
Proof.
  intros Hne. destruct (process_next_ticker_symbols market st) as [Hsub Hout].
  destruct (Hout Hne) as (x & Hx & Hnx). split; [exact Hsub|].
  intros Hback. apply Hnx, Hback, Hx.
Qed.

Lemma passes_symbols_subset (market : @market_oracle F) n : forall st,
  scanner_symbols (passes n market st) ⊆ scanner_symbols st.
Proof.
  induction n as [|n IH]; intros st; [reflexivity|]. cbn [passes].
  etrans; [apply IH|]. apply process_next_ticker_symbols.
Qed.

(** As many passes as the scanner file holds symbols empty it. *)
Lemma passes_drain_scanner (market : @market_oracle F) (n : nat) (st : state) :
  size (scanner_symbols st) <= n ->
  scanner_symbols (passes n market st) = ∅.
Proof.
  revert st. induction n as [|n IH]; intros st Hsize.
  - cbn [passes]. apply leibniz_equiv, size_empty_inv. lia.
  - cbn [passes]. apply IH.
    destruct (decide (scanner_symbols st = ∅)) as [Hempty|Hne].
    + destruct (process_next_ticker_symbols market st) as [Hsub _].
      apply subseteq_size in Hsub. rewrite Hempty, size_empty in Hsub. lia.
    + destruct (process_next_ticker_symbols market st) as [Hsub Hout].
      destruct (Hout Hne) as (x & Hx & Hnx).
      assert (Hlt : size (scanner_symbols (process_next_ticker market st))
                    < size (scanner_symbols st)).
      { apply subset_size. split; [exact Hsub|]. intros Hback. apply Hnx, Hback, Hx. }
      lia.
Qed.

End QueueSets.


Lemma process_next_ticker_shrinks_witness :
  let market : Screener.market_oracle := fun _ _ => Screener.Frame (breakout 1) in
  let st := one_queued "AAPL" in
  Screener.scanner (Screener.process_next_ticker market st) = Some [] /\
  Screener.scanner_symbols (Screener.process_next_ticker market st)
    ⊂ Screener.scanner_symbols st.
Proof.
  intros market st. split; [vm_compute; reflexivity|].
  apply (process_next_ticker_shrinks market st).
  intros Hempty.
  assert (Hin : txt "AAPL" ∈ Screener.scanner_symbols st)
    by (apply (bool_decide_unpack _); vm_compute; exact I).
  rewrite Hempty in Hin. apply elem_of_empty in Hin. exact Hin.
Defined.

(** * Downloads *)

Section Downloads.
Import Screener.
Context {F : Type} `{FloatOps F}.

Lemma fetch_count_log_fetch symbol st :
  fetch_count (log (Fetched symbol) st) = S (fetch_count st).
Proof.
  unfold fetch_count. cbn [log trace]. rewrite filter_app, length_app.
  rewrite filter_cons, filter_nil. cbn [is_fetch].
  rewrite decide_True by exact I. cbn [length]. lia.
Qed.

Lemma download_cases (market : @market_oracle F) (symbol : str) (st : state) :
  let first := market (fetch_count st) symbol in
  let second := market (S (fetch_count st)) symbol in
  let r := fst (download_historical_data market symbol st) in
  let st' := snd (download_historical_data market symbol st) in
  r = (if raised first then frame_or_none second else frame_or_none first) /\
  trace st' = trace st ++ (if raised first then [Fetched symbol; Fetched symbol]
                           else [Fetched symbol]) /\
  scanner st' = scanner st /\ watchlist st' = watchlist st /\
  openpositions st' = openpositions st /\ open_positions st' = open_positions st /\
  r <> Some [].
Proof.
  cbn zeta. unfold download_historical_data, max_retries.
  cbn [download_attempts]. rewrite fetch_count_log_fetch.
  destruct (market (fetch_count st) symbol) as [df1| |]; cbn [raised frame_or_none].
  - destruct df1; cbn; repeat split; discriminate.
  - destruct (market (S (fetch_count st)) symbol) as [df2| |]; cbn [frame_or_none].
    + destruct df2; cbn; rewrite <- app_assoc; repeat split; discriminate.
    + cbn. rewrite <- app_assoc. repeat split. discriminate.
    + cbn. rewrite <- app_assoc. repeat split. discriminate.
  - destruct (market (S (fetch_count st)) symbol) as [df2| |]; cbn [frame_or_none].
    + destruct df2; cbn; rewrite <- app_assoc; repeat split; discriminate.
    + cbn. rewrite <- app_assoc. repeat split. discriminate.
    + cbn. rewrite <- app_assoc. repeat split. discriminate.
Qed.

(** X4: a download asks the price service once, and a second time only if
    the first call raised; it returns the first frame it gets if that frame
    has rows, and nothing otherwise (an empty frame is not retried).  It
    touches no file. *)
Theorem download_retries_once (market : @market_oracle F) (symbol : str) (st : state) :
  let first := market (fetch_count st) symbol in
  let second := market (S (fetch_count st)) symbol in
  let r := fst (download_historical_data market symbol st) in
  let st' := snd (download_historical_data market symbol st) in
  r = (if raised first then frame_or_none second else frame_or_none first) /\
  trace st' = trace st ++ (if raised first then [Fetched symbol; Fetched symbol]
                           else [Fetched symbol]) /\
  scanner st' = scanner st /\ watchlist st' = watchlist st /\
  openpositions st' = openpositions st /\ open_positions st' = open_positions st /\
  r <> Some [].
Proof. exact (download_cases market symbol st). Qed.

Lemma fetch_count_app st st' evs :
  trace st' = trace st ++ evs ->
  fetch_count st' = fetch_count st + length (filter (fun e => is_fetch e) evs).
Proof. unfold fetch_count. intros ->. rewrite filter_app, length_app. reflexivity. Qed.

Lemma no_fetch_among_writes evs :
  Forall (fun e => is_queue_write e = true) evs ->
  filter (fun e => is_fetch e) evs = [].
Proof.
  induction 1 as [|e evs He _ IH]; [reflexivity|].
  rewrite filter_cons, IH. destruct e; cbn in *; try discriminate; reflexivity.
Qed.

Lemma no_fetch_among_scanner_writes evs :
  Forall (fun e => is_scanner_write e = true) evs ->
  filter (fun e => is_fetch e) evs = [].
Proof.
  intros Hw. apply no_fetch_among_writes.
  eapply Forall_impl; [exact Hw|]. apply is_scanner_write_queue_write.
Qed.

Lemma download_fetch_count (market : @market_oracle F) symbol st :
  fetch_count st < fetch_count (snd (download_historical_data market symbol st))
    <= fetch_count st + max_retries.
Proof.
  destruct (download_cases market symbol st) as (_ & Htr & _). cbn zeta in Htr.
  rewrite (fetch_count_app _ _ _ Htr). unfold max_retries.
  destruct (raised _); rewrite !filter_cons, filter_nil; cbn [is_fetch];
    rewrite !decide_True by exact I; cbn [length]; lia.
Qed.

Lemma validate_fetch_count (market : @market_oracle F) symbol st :
  fetch_count st < fetch_count (snd (validate_ema_criteria market symbol st))
    <= fetch_count st + max_retries.
Proof.
  pose proof (download_fetch_count market symbol st) as Hd.
  unfold validate_ema_criteria.
  destruct (download_historical_data market symbol st) as [[df|] st1]; exact Hd.
Qed.

Lemma process_next_ticker_fetches (market : @market_oracle F) (st : state) :
  match fst (get_first_ticker_from_scanner st) with
  | Some _ =>
      fetch_count st < fetch_count (process_next_ticker market st)
        <= fetch_count st + max_retries
  | None => fetch_count (process_next_ticker market st) = fetch_count st
  end.
Proof.
  unfold process_next_ticker.
  destruct (get_first_ticker_from_scanner st) as [[ticker|] st1] eqn:Hsel; cbn [fst].
  2:{ apply get_first_ticker_step in Hsel as (evs & (_ & _ & _ & Htr) & Hev).
      rewrite (fetch_count_app _ _ _ Htr), (no_fetch_among_scanner_writes _ Hev).
      cbn. lia. }
  apply get_first_ticker_step in Hsel as (evs1 & (_ & _ & _ & Htr1) & Hev1).
  assert (H1 : fetch_count st1 = fetch_count st).
  { rewrite (fetch_count_app _ _ _ Htr1), (no_fetch_among_scanner_writes _ Hev1). cbn. lia. }
  pose proof (validate_fetch_count market ticker st1) as Hv.
  destruct (validate_ema_criteria market ticker st1) as [[valid vals] st2]. cbn [snd] in Hv.
  assert (Hrem : forall st3, fetch_count st3 = fetch_count st2 ->
                 fetch_count (_remove_ticker_from_scanner ticker st3) = fetch_count st2).
  { intros st3 <-. destruct (remove_ticker_step ticker st3) as (w & (_ & _ & _ & Htr) & Hw).
    rewrite (fetch_count_app _ _ _ Htr), (no_fetch_among_scanner_writes _ Hw). cbn. lia. }
  destruct valid.
  - rewrite Hrem; [lia|].
    destruct (add_to_watchlist_step ticker
                (match vals with Some v => low_price v | None => float_of_nat 0 end) st2)
      as (w & Htr & Hw & _).
    rewrite (fetch_count_app _ _ _ Htr), (no_fetch_among_writes _ Hw). cbn. lia.
  - rewrite Hrem; [lia|reflexivity].
Qed.

(** X5: one pass downloads for at most one ticker: one or two calls to the
    price service when a ticker is selected, none when none is. *)
Theorem process_next_ticker_fetch_bound (market : @market_oracle F) (st : state) :
  match fst (get_first_ticker_from_scanner st) with
  | Some _ =>
      fetch_count st < fetch_count (process_next_ticker market st)
        <= fetch_count st + max_retries
  | None => fetch_count (process_next_ticker market st) = fetch_count st
  end.
Proof. exact (process_next_ticker_fetches market st). Qed.

End Downloads.

(** * The watchlist *)

Section Watchlist.
Import Screener.
Context {F : Type} `{FloatOps F}.

Lemma load_symbols_symbol_list lines : _load_symbols lines = list_to_set (symbol_list lines).
Proof. reflexivity. Qed.

Lemma symbol_list_app lines1 lines2 :
  symbol_list (lines1 ++ lines2) = symbol_list lines1 ++ symbol_list lines2.
Proof. unfold symbol_list. rewrite filter_app, map_app. reflexivity. Qed.

Lemma symbol_list_watchlist_line symbol (low : F) :
  clean symbol -> symbol_list [watchlist_line symbol low] = [symbol].
Proof.
  intros (Hne & Hsp & Hup). unfold symbol_list, watchlist_line.
  assert (Hsplit : split (symbol ++ txt " " ++ fmt2 low) = symbol :: split (fmt2 low))
    by (apply split_clean_line; auto).
  rewrite filter_cons.
  rewrite decide_True by (rewrite nonempty_strip_split, Hsplit; exact I).
  rewrite filter_nil. cbn [map]. rewrite Hsplit. unfold first. cbn [hd].
  rewrite Hup. reflexivity.
Qed.

Lemma watchlist_lines_add_to_watchlist symbol (low : F) st :
  watchlist_lines (add_to_watchlist symbol low st) =
    watchlist_lines st ++
      (if bool_decide (symbol ∈ _get_watchlist_symbols st) then []
       else [watchlist_line symbol low]).
Proof.
  unfold watchlist_lines. rewrite watchlist_add_to_watchlist.
  destruct (bool_decide _); [rewrite app_nil_r|]; reflexivity.
Qed.

(** What one pass does to the watchlist: nothing, or one line for a clean
    symbol that the watchlist does not hold yet. *)
Lemma process_next_ticker_watchlist_lines (market : @market_oracle F) st :
  watchlist_lines (process_next_ticker market st) = watchlist_lines st \/
  exists symbol low,
    clean symbol /\ (symbol ∉ _get_watchlist_symbols st) /\
    watchlist_lines (process_next_ticker market st) =
      watchlist_lines st ++ [watchlist_line symbol low].
Proof.
  unfold process_next_ticker.
  destruct (get_first_ticker_from_scanner st) as [[ticker|] st1] eqn:Hsel.
  2:{ apply get_first_ticker_step in Hsel as (evs & (_ & Hw & _) & _).
      left. unfold watchlist_lines. rewrite Hw. reflexivity. }
  destruct (get_first_ticker_selected _ _ _ Hsel) as [Hclean _].
  apply get_first_ticker_step in Hsel as (evs1 & (_ & Hw1 & _) & _).
  destruct (validate_ema_criteria market ticker st1) as [[valid vals] st2] eqn:Hval.
  apply validate_step in Hval as (evs2 & (_ & _ & Hw2 & _) & _).
  assert (Hw : watchlist st2 = watchlist st) by congruence.
  destruct valid.
  - unfold watchlist_lines at 1 3. rewrite watchlist_remove_ticker.
    fold (watchlist_lines (add_to_watchlist ticker
            (match vals with Some v => low_price v | None => float_of_nat 0 end) st2)).
    rewrite watchlist_lines_add_to_watchlist.
    rewrite (get_watchlist_symbols_ext st st2 Hw).
    assert (Hl : watchlist_lines st2 = watchlist_lines st)
      by (unfold watchlist_lines; rewrite Hw; reflexivity).
    rewrite Hl. destruct (bool_decide _) eqn:Hin.
    + left. rewrite app_nil_r. reflexivity.
    + right. apply bool_decide_eq_false in Hin. eauto.
  - left. unfold watchlist_lines. rewrite watchlist_remove_ticker, Hw. reflexivity.
Qed.

Lemma cycle_watchlist_lines `{SetOrder} (market : @market_oracle F) input st :
  watchlist_lines (cycle market input st) = watchlist_lines st \/
  exists symbol low,
    clean symbol /\ (symbol ∉ _get_watchlist_symbols st) /\
    watchlist_lines (cycle market input st) =
      watchlist_lines st ++ [watchlist_line symbol low].
Proof.
  unfold cycle.
  set (st1 := reload_positions (positions_snapshot input) st).
  set (st2 := check_email_for_tickers (mails input) st1).
  destruct (reload_positions_frame (positions_snapshot input) st) as [Hw1 _].
  destruct (check_email_frame (mails input) st1) as [_ Hw2].
  fold st1 in Hw1. fold st2 in Hw2.
  assert (Hw : watchlist st2 = watchlist st) by congruence.
  assert (Hl : watchlist_lines st2 = watchlist_lines st)
    by (unfold watchlist_lines; rewrite Hw; reflexivity).
  rewrite <- Hl, <- (get_watchlist_symbols_ext st st2 Hw).
  apply process_next_ticker_watchlist_lines.
Qed.

(** X6: the screener only ever appends to the watchlist: over any run of
    cycles the lines it found are kept, unchanged and in order, and at most
    one line per cycle is added after them. *)
Theorem run_cycles_append_only `{SetOrder} (market : @market_oracle F)
    (inputs : list cycle_input) (st : state) :
  exists added,
    watchlist_lines (run_cycles market inputs st) = watchlist_lines st ++ added /\
    length added <= length inputs.
Proof.
  unfold run_cycles. revert st.
  induction inputs as [|input inputs IH]; intros st.
  - exists []. rewrite app_nil_r. split; [reflexivity|cbn; lia].
  - cbn [fold_left]. destruct (IH (cycle market input st)) as (added & E & Hlen).
    destruct (cycle_watchlist_lines market input st) as [Hsame|(symbol & low & _ & _ & Hadd)].
    + exists added. rewrite E, Hsame. split; [reflexivity|cbn; lia].
    + exists ([watchlist_line symbol low] ++ added).
      rewrite E, Hadd, <- app_assoc. split; [reflexivity|cbn; lia].
Qed.

Lemma cycle_symbol_list_NoDup `{SetOrder} (market : @market_oracle F) input st :
  NoDup (symbol_list (watchlist_lines st)) ->
  NoDup (symbol_list (watchlist_lines (cycle market input st))).
Proof.
  intros Hnd.
  destruct (cycle_watchlist_lines market input st) as [->|(symbol & low & Hclean & Hnew & ->)];
    [exact Hnd|].
  rewrite symbol_list_app, symbol_list_watchlist_line by exact Hclean.
  apply NoDup_app. split; [exact Hnd|]. split; [|apply NoDup_singleton].
  intros x Hx ->%list_elem_of_singleton. apply Hnew.
  unfold _get_watchlist_symbols, watchlist_lines in *.
  destruct (watchlist st); cbn [default] in Hx.
  - rewrite load_symbols_symbol_list, elem_of_list_to_set. exact Hx.
  - apply elem_of_nil in Hx. contradiction.
Qed.

(** X7: a watchlist that lists no symbol twice never comes to list one
    twice, whatever alerts, prices and open positions the cycles meet. *)
Theorem watchlist_symbols_stay_distinct `{SetOrder} (market : @market_oracle F)
    (inputs : list cycle_input) (st : state) :
  NoDup (symbol_list (watchlist_lines st)) ->
  NoDup (symbol_list (watchlist_lines (run_cycles market inputs st))).
Proof.
  unfold run_cycles. revert st.
  induction inputs as [|input inputs IH]; intros st Hnd; [exact Hnd|].
  cbn [fold_left]. apply IH, cycle_symbol_list_NoDup, Hnd.
Qed.

End Watchlist.

Lemma watchlist_symbols_stay_distinct_witness :
  let market : Screener.market_oracle := fun _ _ => Screener.Frame (breakout 1) in
  let inputs :=
    [ {| Screener.positions_snapshot := None; Screener.mails := [txt "BBAuto: AAPL GO"] |};
      {| Screener.positions_snapshot := None; Screener.mails := [txt "BBAUTO alert AAPL"] |};
      {| Screener.positions_snapshot := None; Screener.mails := [] |} ] in
  let st := {| Screener.open_positions := ∅; Screener.scanner := None;
               Screener.watchlist := Some [txt "aapl 3.10"]; Screener.openpositions := None;
               Screener.trace := [] |} in
  Screener.watchlist (Screener.run_cycles market inputs st)
    = Some [txt "aapl 3.10"; txt "GO 1.00"] /\
  NoDup (Screener.symbol_list (Screener.watchlist_lines (Screener.run_cycles market inputs st))).
Proof.
  intros market inputs st. split; [vm_compute; reflexivity|].
  apply (watchlist_symbols_stay_distinct market inputs st).
  change (NoDup [txt "AAPL"]). apply NoDup_singleton.
Defined.

(** * Accepted symbols *)

Section Accepted.
Import Screener.
Context {F : Type} `{FloatOps F}.

Lemma length_ewm_from (alpha : F) (s : ewm_state) xs :
  length (ewm_from alpha s xs) = length xs.
Proof.
  revert s. induction xs as [|x xs IH]; intros s; [reflexivity|].
  cbn [ewm_from length]. rewrite IH. reflexivity.
Qed.

Lemma length_ewm_mean span (xs : list F) : length (ewm_mean span xs) = length xs.
Proof.
  destruct xs; [reflexivity|]. cbn [ewm_mean length].
  rewrite length_ewm_from. reflexivity.
Qed.

Lemma crossover_scan_bounds (above : list bool) (i : nat) :
  i < length above -> 1 <= crossover_scan above i <= length above.
Proof.
  induction i as [|i IH]; intros Hi; cbn [crossover_scan]; [lia|].
  destruct (negb (nth i above false) && nth (S i) above false); [lia|].
  destruct (negb (nth i above false)); [lia|]. apply IH. lia.
Qed.

(** The crossover age is computed exactly when the two series have the
    same, non-zero, length and the last bar is above; it then lies between
    one and the length of the series. *)
Lemma bars_since_crossover_cases (ema_21 ema_100 : list F) :
  match calculate_bars_since_crossover ema_21 ema_100 with
  | Some d =>
      length ema_21 = length ema_100 /\
      List.last (zip_with fgt ema_21 ema_100) false = true /\
      1 <= d <= length ema_21
  | None =>
      length ema_21 <> length ema_100 \/
      List.last (zip_with fgt ema_21 ema_100) false = false
  end.
Proof.
  unfold calculate_bars_since_crossover.
  destruct (length ema_21 =? length ema_100) eqn:Hlen; cbn [negb].
  2:{ left. apply Nat.eqb_neq, Hlen. }
  apply Nat.eqb_eq in Hlen.
  set (above := zip_with fgt ema_21 ema_100).
  assert (Hla : length above = length ema_21).
  { subst above. rewrite length_zip_with. lia. }
  destruct (nonempty above) eqn:Hne; cbn [negb].
  2:{ right. destruct above; [reflexivity|discriminate]. }
  destruct (List.last above false) eqn:Hlast; cbn [negb]; [|right; reflexivity].
  split; [exact Hlen|]. split; [reflexivity|].
  rewrite <- Hla. apply crossover_scan_bounds.
  destruct above; [discriminate|cbn; lia].
Qed.

(** X8: [calculate_bars_since_crossover] gives a value only for two series of
    the same length whose last bar has the first above the second, and the
    value is then at least one bar and at most the length of the series; in
    every other case (different lengths, empty series, last bar not above)
    it gives none. *)
Theorem bars_since_crossover_range (ema_21 ema_100 : list F) :
  match calculate_bars_since_crossover ema_21 ema_100 with
  | Some d =>
      length ema_21 = length ema_100 /\
      List.last (zip_with fgt ema_21 ema_100) false = true /\
      1 <= d <= length ema_21
  | None =>
      length ema_21 <> length ema_100 \/
      List.last (zip_with fgt ema_21 ema_100) false = false
  end.
Proof. exact (bars_since_crossover_cases ema_21 ema_100). Qed.

Lemma validate_frame_accepts (df : list bar) vals :
  validate_frame df = (true, vals) ->
  100 <= length df /\
  exists v d, vals = Some v /\
    ema_check v = true /\ bullish_bar v = true /\ above_bb_upper v = true /\
    low_price v = iloc_last (map Low df) /\
    bars_since_crossover v = Some d /\ 1 <= d <= length df.
Proof.
  unfold validate_frame, validate_frame_with, calculate_ema.
  destruct (length df <? 21) eqn:H21; [discriminate|].
  destruct (length df <? 100) eqn:H100; [discriminate|].
  apply Nat.ltb_ge in H100.
  destruct (calculate_bollinger_bands df 20 2) as [bb|]; [|discriminate].
  intros [= Hvalid <-].
  apply andb_true_iff in Hvalid as [Hvalid Hband].
  apply andb_true_iff in Hvalid as [Hema Hbull].
  split; [exact H100|].
  pose proof (bars_since_crossover_cases (ewm_mean 21 (map Close df))
                (ewm_mean 100 (map Close df))) as Hcase.
  assert (Hlen21 : length (ewm_mean 21 (map Close df)) = length df)
    by (rewrite length_ewm_mean, length_map; reflexivity).
  assert (Hlen100 : length (ewm_mean 100 (map Close df)) = length df)
    by (rewrite length_ewm_mean, length_map; reflexivity).
  destruct (calculate_bars_since_crossover _ _) as [d|] eqn:Hcross.
  - destruct Hcase as (_ & _ & Hd). rewrite Hlen21 in Hd.
    eexists _, d. split; [reflexivity|]. cbn. rewrite Hema. repeat split; auto; lia.
  - exfalso. destruct Hcase as [Hne|Hlast]; [congruence|].
    rewrite (last_zip_with fgt _ _ fnan fnan) in Hlast.
    + unfold iloc_last in Hema. congruence.
    + congruence.
    + intros E. rewrite E in Hlen21. cbn in Hlen21. lia.
Qed.

(** X9: a symbol is accepted only on a downloaded history of at least a
    hundred bars; the result then carries the values with all three checks
    true, the low of the last bar as limit price (never the default), and a
    crossover age between one bar and the length of the history. *)
Theorem accepted_symbol_has_values (market : @market_oracle F) (symbol : str)
    (st st' : state) (vals : option validation_values) :
  validate_ema_criteria market symbol st = ((true, vals), st') ->
  exists df v d,
    download_historical_data market symbol st = (Some df, st') /\
    100 <= length df /\ vals = Some v /\
    ema_check v = true /\ bullish_bar v = true /\ above_bb_upper v = true /\
    low_price v = iloc_last (map Low df) /\
    bars_since_crossover v = Some d /\ 1 <= d <= length df.
Proof.
  unfold validate_ema_criteria.
  destruct (download_historical_data market symbol st) as [[df|] st1]; [|discriminate].
  intros [= Hv <-].
  destruct (validate_frame_accepts df vals) as (Hlen & v & d & Hrest).
  { destruct (validate_frame df) as [b o]. cbn in *. congruence. }
  exists df, v, d. tauto.
Qed.

End Accepted.

Lemma accepted_symbol_has_values_witness :
  let market : Screener.market_oracle := fun _ _ => Screener.Frame (breakout 1) in
  let st := one_queued "AAPL" in
  exists df v d,
    Screener.download_historical_data market (txt "AAPL") st
      = (Some df, Screener.log (Screener.Fetched (txt "AAPL")) st) /\
    100 <= length df /\ snd (Screener.validate_frame (breakout 1)) = Some v /\
    Screener.ema_check v = true /\ Screener.bullish_bar v = true /\
    Screener.above_bb_upper v = true /\
    Screener.low_price v = Screener.iloc_last (map Screener.Low df) /\
    Screener.bars_since_crossover v = Some d /\ 1 <= d <= length df.
Proof.
  intros market st.
  apply (accepted_symbol_has_values market (txt "AAPL") st
           (Screener.log (Screener.Fetched (txt "AAPL")) st)
           (snd (Screener.validate_frame (breakout 1)))).
  vm_compute. reflexivity.
Defined.

(** * Alerts into the scanner file *)

Section Alerts.
Import Screener.

Lemma extract_symbols text :
  Forall (fun t => is_symbol t = true /\ excluded t = false) (extract_ticker_symbols text).
Proof.
  unfold extract_ticker_symbols. destruct (negb _); [constructor|].
  rewrite findall_ticker_pattern_spec. apply Forall_forall. intros t Ht.
  apply list_elem_of_filter in Ht as [Hex Ht].
  apply list_elem_of_filter in Ht as [Hsym _].
  split; [apply Is_true_true, Hsym|].
  apply Is_true_true, negb_true_iff in Hex. exact Hex.
Qed.

(** X10: whatever the text, every ticker extracted is one to five capital
    letters and none of the stop words; in particular the marker itself is
    never taken for a ticker. *)
Theorem extract_yields_symbols (text : str) :
  Forall (fun t => is_symbol t = true /\ t ∉ excluded_words)
         (extract_ticker_symbols text)
  /\ txt "BBAUTO" ∉ extract_ticker_symbols text.
Proof.
  pose proof (extract_symbols text) as Hall. split.
  - eapply Forall_impl; [exact Hall|]. intros t [Hs Hex]. split; [exact Hs|].
    unfold excluded in Hex. apply bool_decide_eq_false in Hex. exact Hex.
  - intros Hin. rewrite Forall_forall in Hall. destruct (Hall _ Hin) as [Hs _].
    vm_compute in Hs. discriminate.
Qed.

Lemma load_symbols_words ts :
  Forall clean ts -> _load_symbols ts = list_to_set ts.
Proof.
  intros Hall. apply set_eq. intros x.
  rewrite elem_of_load_symbols, elem_of_list_to_set. rewrite Forall_forall in Hall. split.
  - intros (l & Hin & _ & ->). destruct (Hall l Hin) as (Hne & Hsp & Hup).
    rewrite (split_word l Hne Hsp). unfold first. cbn [hd]. rewrite Hup. exact Hin.
  - intros Hin. exists x. destruct (Hall x Hin) as (Hne & Hsp & Hup).
    rewrite (split_word x Hne Hsp). unfold first. cbn [hd]. rewrite Hup.
    repeat split; auto.
Qed.

Lemma load_symbols_strip lines : _load_symbols (map strip lines) = _load_symbols lines.
Proof.
  apply set_eq. intros x. rewrite !elem_of_load_symbols. split.
  - intros (l & Hin & Hne & ->). apply list_elem_of_fmap in Hin as (l0 & -> & Hin).
    rewrite split_strip in *. eauto.
  - intros (l & Hin & Hne & ->). exists (strip l). rewrite split_strip.
    repeat split; auto. apply list_elem_of_fmap. eauto.
Qed.

Lemma load_symbols_elem lines1 lines2 :
  (forall x, x ∈ lines1 <-> x ∈ lines2) -> _load_symbols lines1 = _load_symbols lines2.
Proof.
  intros Hel. apply set_eq. intros x. rewrite !elem_of_load_symbols.
  split; intros (l & Hin & Hrest); exists l; (split; [apply Hel, Hin|exact Hrest]).
Qed.

Lemma update_scanner_file_symbols `{SetOrder} tickers st :
  Forall clean tickers ->
  scanner_symbols (update_scanner_file tickers st) = scanner_symbols st ∪ list_to_set tickers.
Proof.
  intros Hcl. unfold scanner_symbols at 1. rewrite scanner_update_scanner_file.
  set (existing := match scanner st with Some lines => map strip lines | None => [] end).
  rewrite (load_symbols_elem _ (existing ++ tickers)).
  2:{ intros x. rewrite union_iter_elem, elem_of_app. reflexivity. }
  rewrite load_symbols_app, (load_symbols_words tickers Hcl). f_equal.
  unfold scanner_symbols. subst existing. destruct (scanner st).
  - apply load_symbols_strip.
  - reflexivity.
Qed.

(** X11: merging symbols into the scanner file adds exactly them to the set
    of symbols it holds: none of the symbols already queued is lost. *)
Theorem update_scanner_file_adds `{SetOrder} (tickers : list str) (st : state) :
  Forall (fun t => is_symbol t = true) tickers ->
  scanner_symbols (update_scanner_file tickers st) = scanner_symbols st ∪ list_to_set tickers
  /\ watchlist (update_scanner_file tickers st) = watchlist st
  /\ openpositions (update_scanner_file tickers st) = openpositions st.
Proof.
  intros Hsym. split; [|split; reflexivity].
  apply update_scanner_file_symbols.
  eapply Forall_impl; [exact Hsym|]. apply is_symbol_clean.
Qed.

(** X12: after the alert mails of a cycle are read, the scanner file holds
    the symbols it held before and every ticker extracted from every mail,
    and nothing else. *)
Theorem check_email_queues_every_ticker `{SetOrder} (contents : list str) (st : state) :
  scanner_symbols (check_email_for_tickers contents st) =
    scanner_symbols st ∪ list_to_set (concat (map extract_ticker_symbols contents)).
Proof.
  unfold check_email_for_tickers. revert st.
  induction contents as [|c contents IH]; intros st.
  - cbn [fold_left map concat list_to_set]. symmetry. apply (right_id_L ∅ (∪)).
  - cbn [fold_left map concat]. rewrite IH, list_to_set_app_L.
    destruct (nonempty (extract_ticker_symbols c)) eqn:Hne.
    + rewrite update_scanner_file_symbols.
      * apply set_eq. intros x. rewrite !elem_of_union. tauto.
      * eapply Forall_impl; [apply extract_symbols|].
        intros t [Hs _]. apply is_symbol_clean, Hs.
    + destruct (extract_ticker_symbols c); [|discriminate]. cbn [list_to_set].
      rewrite (left_id_L ∅ (∪)). reflexivity.
Qed.

End Alerts.

Lemma update_scanner_file_adds_witness :
  let _ := insertion_order in
  let st := {| Screener.open_positions := ∅;
               Screener.scanner := Some [txt " go "; txt "msft 1"];
               Screener.watchlist := None; Screener.openpositions := None;
               Screener.trace := [] |} in
  let st' := Screener.update_scanner_file [txt "AAPL"; txt "GO"] st in
  Screener.scanner st' = Some [txt "go"; txt "msft 1"; txt "AAPL"; txt "GO"] /\
  (Screener.scanner_symbols st' = Screener.scanner_symbols st ∪ list_to_set [txt "AAPL"; txt "GO"]
   /\ Screener.watchlist st' = Screener.watchlist st
   /\ Screener.openpositions st' = Screener.openpositions st).
Proof.
  intros ord st st'. split; [vm_compute; reflexivity|].
  apply (update_scanner_file_adds [txt "AAPL"; txt "GO"] st).
  repeat constructor.
Defined.

(** * Counting the scanner file *)

Section Count.
Import Screener.
Context {F : Type} `{FloatOps F}.

Lemma size_list_to_set_le (l : list str) : size (list_to_set l : gset str) <= length l.
Proof.
  induction l as [|x l IH]; cbn [list_to_set length].
  - rewrite size_empty. lia.
  - rewrite size_union_alt, size_singleton.
    pose proof (subseteq_size (list_to_set l ∖ {[x]}) (list_to_set l : gset str)) as Hs.
    assert (Hsub : list_to_set l ∖ {[x]} ⊆ (list_to_set l : gset str))
      by (intros y [Hy _]%elem_of_difference; exact Hy).
    specialize (Hs Hsub). lia.
Qed.

Lemma size_scanner_symbols st : size (scanner_symbols st) <= _count_scanner_tickers st.
Proof.
  unfold scanner_symbols, _count_scanner_tickers. destruct (scanner st) as [lines|].
  2:{ rewrite size_empty. lia. }
  rewrite load_symbols_symbol_list. etrans; [apply size_list_to_set_le|].
  unfold symbol_list. rewrite length_map.
  assert (E : filter (fun line => nonempty (strip line) && nonempty (split line)) lines
              = filter (fun line => nonempty (strip line)) lines).
  { apply list_filter_iff. intros l. rewrite nonempty_strip_split.
    destruct (nonempty (split l)); reflexivity. }
  rewrite E. lia.
Qed.

(** X13: the number of tickers the loop logs before each pass bounds the work
    left: that many passes (with no new alert) leave no symbol in the
    scanner file. *)
Theorem passes_drain_counted (market : @market_oracle F) (n : nat) (st : state) :
  _count_scanner_tickers st <= n ->
  scanner_symbols (passes n market st) = ∅.
Proof.
  intros Hn. apply passes_drain_scanner.
  pose proof (size_scanner_symbols st). lia.
Qed.

Lemma first_ticker_scan_blank lines st :
  filter (fun line => nonempty (strip line)) lines = [] ->
  first_ticker_scan lines st = (None, st).
Proof.
  induction lines as [|line rest IH]; intros Hb; [reflexivity|].
  rewrite filter_cons in Hb. cbn [first_ticker_scan].
  destruct (nonempty (strip line)).
  - rewrite decide_True in Hb by exact I. discriminate.
  - rewrite decide_False in Hb by (intros []). cbn [negb]. apply IH, Hb.
Qed.

(** X14: when the count is zero (no file, or only blank lines) a pass changes
    nothing at all: no file is written and nothing is downloaded. *)
Theorem empty_scanner_pass_is_noop (market : @market_oracle F) (st : state) :
  _count_scanner_tickers st = 0 ->
  process_next_ticker market st = st.
Proof.
  unfold _count_scanner_tickers, process_next_ticker, get_first_ticker_from_scanner.
  destruct (scanner st) as [lines|]; [|reflexivity].
  intros Hc. apply length_zero_iff_nil in Hc.
  rewrite (first_ticker_scan_blank lines st Hc). reflexivity.
Qed.

End Count.

Lemma passes_drain_counted_witness :
  let market : Screener.market_oracle := fun _ _ => Screener.Frame (breakout 1) in
  let st := {| Screener.open_positions := {[ txt "MSFT" ]};
               Screener.scanner := Some [txt "MSFT"; txt "aapl"; txt ""; txt "GO"];
               Screener.watchlist := None; Screener.openpositions := None;
               Screener.trace := [] |} in
  Screener._count_scanner_tickers st = 3 /\
  Screener.scanner_symbols (Screener.passes 3 market st) = ∅.
Proof.
  intros market st. split; [reflexivity|].
  apply (passes_drain_counted market 3 st). vm_compute. lia.
Defined.

Lemma empty_scanner_pass_is_noop_witness :
  let market : Screener.market_oracle := fun _ _ => Screener.Frame (breakout 1) in
  let st := {| Screener.open_positions := ∅;
               Screener.scanner := Some [txt ""; txt "  "];
               Screener.watchlist := None; Screener.openpositions := None;
               Screener.trace := [] |} in
  Screener.process_next_ticker market st = st.
Proof.
  intros market st. apply (empty_scanner_pass_is_noop market st). reflexivity.
Defined.

(** * The sweep and the status line *)

Section SweepOrders.
Import Main.
Context {F : Type} `{FloatOps F}.

Lemma expected_attempts_unreadable (broker : broker_oracle) (es : list str) : forall k,
  Forall (fun a => order_of_entry (F:=F) (fst a) = None -> snd a = MalformedPrice)
         (expected_attempts (F:=F) broker k es).
Proof.
  induction es as [|e es IH]; intros k; [constructor|].
  cbn [expected_attempts]. destruct (order_of_entry e) eqn:He; constructor; auto.
  cbn [fst snd]. rewrite He. discriminate.
Qed.

Lemma expected_attempts_malformed (broker : broker_oracle) (es : list str) :
  (forall k o, broker k o <> RaisedValueError) ->
  forall k,
    Forall (fun a => snd a = MalformedPrice <-> order_of_entry (F:=F) (fst a) = None)
           (expected_attempts (F:=F) broker k es).
Proof.
  intros Hbroker. induction es as [|e es IH]; intros k; [constructor|].
  cbn [expected_attempts]. destruct (order_of_entry e) as [o|] eqn:He; constructor; auto.
  - cbn [fst snd]. rewrite He. specialize (Hbroker k o).
    destruct (broker k o) as [status_code location| |]; cbn [outcome_of].
    + destruct (bool_decide _); split; discriminate.
    + contradiction.
    + split; discriminate.
  - cbn [fst snd]. rewrite He. tauto.
Qed.

(** X15: the orders a sweep submits are those of the entries whose price can
    be read, one each and in file order, whatever the broker answers to
    the others; an attempt for which no order could be built is reported
    as a malformed price, and these are the only attempts so reported
    unless a call to the broker raises a [ValueError]; and the sweep
    sleeps 3 seconds after each order placed and 10 after each other
    attempt. *)
Theorem sweep_orders_readable_entries (broker : broker_oracle) (lines : list str) :
  let sw := process_watchlist_orders (F:=F) broker (Some lines) in
  orders sw = omap order_of_entry (map strip (entries lines)) /\
  Forall (fun a => order_of_entry (F:=F) (fst a) = None -> snd a = MalformedPrice)
         (attempts sw) /\
  ((forall k o, broker k o <> RaisedValueError) ->
   Forall (fun a => snd a = MalformedPrice <-> order_of_entry (F:=F) (fst a) = None)
          (attempts sw)) /\
  slept sw = total_pause (attempts sw).
Proof.
  cbn zeta. destruct (sweep_spec broker lines) as (_ & Ha & Ho & Hs).
  split; [exact Ho|]. split; [|split; [|exact Hs]].
  - rewrite Ha. apply expected_attempts_unreadable.
  - intros Hbroker. rewrite Ha. apply expected_attempts_malformed, Hbroker.
Qed.

End SweepOrders.

Section Status.
Import Main.
Context {F : Type} `{FloatOps F}.

Lemma displayed_items (raw : list str) :
  map (fun parts => upper (nth 0 parts []))
      (filter (fun parts => 2 <=? length parts)
         (map split (filter (fun line => Screener.nonempty line) (map strip raw))))
  = map (fun line => upper (Screener.first (split line))) (entries raw).
Proof.
  unfold entries. induction raw as [|line raw IH]; [reflexivity|].
  cbn [map]. rewrite !filter_cons.
  destruct (Screener.nonempty (strip line)) eqn:Hne.
  - rewrite decide_True by exact I. cbn [map]. rewrite filter_cons, split_strip.
    destruct (2 <=? length (split line)).
    + rewrite !decide_True by exact I. cbn [map]. rewrite IH.
      destruct (split line); reflexivity.
    + rewrite !decide_False by (intros []). exact IH.
  - rewrite decide_False by (intros []).
    rewrite nonempty_strip_split in Hne.
    destruct (split line); [|discriminate]. cbn [length Nat.leb].
    rewrite decide_False by (intros []). exact IH.
Qed.

(** X16: the status line names the symbols of the entries of the watchlist
    file, in upper case and in file order, and says that the watchlist is
    empty exactly when the file has no entry (no file, no line, or only
    blank and one-token lines); right after a sweep it always says so. *)
Theorem display_lists_entries (broker : broker_oracle) (file : option (list str)) :
  display_watchlist_status file =
    (if Screener.nonempty (entries (default [] file))
     then txt "Watchlist: " ++
          join (txt ", ")
               (map (fun line => upper (Screener.first (split line)))
                    (entries (default [] file)))
     else empty_message)
  /\ display_watchlist_status
       (watchlist_file (process_watchlist_orders (F:=F) broker file)) = empty_message.
Proof.
  split.
  2:{ unfold process_watchlist_orders. destruct file as [[|l ls]|]; reflexivity. }
  destruct file as [raw|]; [|reflexivity].
  change (default [] (Some raw)) with raw.
  destruct raw as [|l raw]; [reflexivity|].
  unfold display_watchlist_status. rewrite displayed_items.
  generalize (l :: raw). intros raw'.
  destruct (filter (fun line => Screener.nonempty line) (map strip raw')) as [|x xs] eqn:Hf.
  - cbn [Screener.nonempty negb].
    pose proof (displayed_items raw') as Hd. rewrite Hf in Hd.
    change ([] = map (fun line => upper (Screener.first (split line))) (entries raw')) in Hd.
    destruct (entries raw'); [reflexivity|discriminate].
  - cbn [Screener.nonempty negb].
    destruct (entries raw'); reflexivity.
Qed.

End Status.

(** * From the screener to the broker *)

Section Handover.
Import Main.
Context {F : Type} `{FloatOps F}.

Lemma sweep_orders (broker : broker_oracle) (lines : list str) :
  orders (process_watchlist_orders (F:=F) broker (Some lines)) =
    omap order_of_entry (map strip (entries lines)).
Proof.
  destruct (sweep_spec broker lines) as (_ & _ & Ho & _). exact Ho.
Qed.

Lemma split_watchlist_line symbol (low : F) :
  clean symbol -> fmt2 low <> [] ->
  forallb (fun x => negb (is_space x)) (fmt2 low) = true ->
  split (Screener.watchlist_line symbol low) = [symbol; fmt2 low].
Proof.
  intros (Hne & Hsp & _) Hp Hps. unfold Screener.watchlist_line.
  rewrite split_clean_line by auto. rewrite (split_word _ Hp Hps). reflexivity.
Qed.

(** X17: a line the screener wrote on the watchlist is read back by the
    sweep as an order for the same symbol, one share, at the price read
    from the two-decimal text, after the orders of the lines before it
    (provided the formatted price is one token that [float] can read). *)
Theorem watchlist_line_is_ordered (broker broker' : broker_oracle) (lines : list str)
    (symbol : str) (low limit_price : F) :
  clean symbol -> fmt2 low <> [] ->
  forallb (fun x => negb (is_space x)) (fmt2 low) = true ->
  float_of_str (fmt2 low) = Some limit_price ->
  orders (process_watchlist_orders broker
            (Some (lines ++ [Screener.watchlist_line symbol low]))) =
    orders (process_watchlist_orders broker' (Some lines))
      ++ [create_limit_order symbol limit_price 1].
Proof.
  intros Hclean Hp Hps Hread. rewrite !sweep_orders.
  pose proof (split_watchlist_line symbol low Hclean Hp Hps) as Hsplit.
  unfold entries. rewrite filter_app, filter_cons, filter_nil, Hsplit.
  cbn [length Nat.leb]. rewrite decide_True by exact I.
  rewrite map_app, omap_app. f_equal. cbn [map].
  change (omap order_of_entry [?l])
    with (match order_of_entry (F:=F) l with Some o => [o] | None => [] end).
  rewrite order_of_entry_strip. unfold order_of_entry. rewrite Hsplit. cbn [nth].
  rewrite Hread. destruct Hclean as (_ & _ & ->). reflexivity.
Qed.

End Handover.

Lemma watchlist_line_is_ordered_witness :
  let broker : Main.broker_oracle := fun _ _ => Main.Response 201 None in
  let broker' : Main.broker_oracle := fun _ _ => Main.Raised in
  Main.orders (Main.process_watchlist_orders broker
                 (Some ([txt "GO 2.50"] ++ [Screener.watchlist_line (txt "AAPL") (price 1)]))) =
    Main.orders (Main.process_watchlist_orders broker' (Some [txt "GO 2.50"]))
      ++ [Main.create_limit_order (txt "AAPL") (price 1) 1].
Proof.
  intros broker broker'.
  apply (watchlist_line_is_ordered broker broker' [txt "GO 2.50"] (txt "AAPL")
           (price 1) (price 1)).
  - repeat split; [discriminate|reflexivity..].
  - discriminate.
  - reflexivity.
  - reflexivity.
Defined.

(** * More on the queue files *)

Section QueueFiles.
Import Screener.
Context {F : Type} `{FloatOps F}.

(** X18: the symbols loaded from a file are non-empty upper-case words
    without white space, and loading is a normal form: writing the loaded
    symbols one per line, in any order, and loading again gives the same
    set. *)
Theorem load_symbols_round_trip (lines written : list str) :
  (forall x, x ∈ written <-> x ∈ _load_symbols lines) ->
  _load_symbols written = _load_symbols lines /\ Forall clean written.
Proof.
  intros Hw.
  assert (Hclean : Forall clean written).
  { apply Forall_forall. intros x Hx. apply (load_symbols_clean x lines), Hw, Hx. }
  split; [|exact Hclean].
  rewrite (load_symbols_words written Hclean). apply set_eq. intros x.
  rewrite elem_of_list_to_set. apply Hw.
Qed.

(** X19: a symbol already on the watchlist is not added again and keeps the
    limit price it was listed with: adding it a second time, at whatever
    price, changes nothing. *)
Theorem add_to_watchlist_keeps_first (symbol : str) (low low' : F) (st : state) :
  clean symbol ->
  add_to_watchlist symbol low' (add_to_watchlist symbol low st) =
    add_to_watchlist symbol low st.
Proof.
  intros Hclean. unfold add_to_watchlist at 1.
  rewrite bool_decide_eq_true_2; [reflexivity|].
  rewrite symbols_add_to_watchlist by exact Hclean.
  apply elem_of_union. right. apply elem_of_singleton. reflexivity.
Qed.

Lemma filter_keeps_comm a b (lines : list str) :
  filter (fun line => keeps a line) (filter (fun line => keeps b line) lines) =
  filter (fun line => keeps b line) (filter (fun line => keeps a line) lines).
Proof.
  rewrite !(filter_andb (keeps _) (keeps _)).
  apply list_filter_iff. intros l. rewrite andb_comm. reflexivity.
Qed.

(** X20: removals from the scanner file can be made in any order and
    repeated: the file ends up the same. *)
Theorem remove_ticker_composes (a b : str) (st : state) :
  scanner (_remove_ticker_from_scanner a (_remove_ticker_from_scanner b st)) =
    scanner (_remove_ticker_from_scanner b (_remove_ticker_from_scanner a st))
  /\ scanner (_remove_ticker_from_scanner a (_remove_ticker_from_scanner a st)) =
       scanner (_remove_ticker_from_scanner a st).
Proof.
  unfold _remove_ticker_from_scanner.
  destruct (scanner st) as [lines|] eqn:E; cbn [scanner write_scanner log]; rewrite ?E.
  - split; [rewrite filter_keeps_comm; reflexivity|].
    f_equal. rewrite (filter_andb (keeps a) (keeps a)).
    apply list_filter_iff. intros l. rewrite andb_diag. reflexivity.
  - split; reflexivity.
Qed.

Lemma fetch_count_write_scanner lines st :
  fetch_count (write_scanner lines st) = fetch_count st.
Proof.
  unfold fetch_count. cbn [write_scanner log trace].
  rewrite filter_app, length_app, filter_cons, filter_nil. cbn [is_fetch].
  rewrite decide_False by (intros []). cbn. lia.
Qed.

Lemma fetch_count_check_email `{SetOrder} contents : forall st,
  fetch_count (check_email_for_tickers contents st) = fetch_count st.
Proof.
  unfold check_email_for_tickers.
  induction contents as [|c contents IH]; intros st; [reflexivity|].
  cbn [fold_left]. rewrite IH. destruct (nonempty _); [|reflexivity].
  apply fetch_count_write_scanner.
Qed.

Lemma cycle_fetch_count `{SetOrder} (market : @market_oracle F) input st :
  fetch_count (cycle market input st) <= fetch_count st + max_retries.
Proof.
  unfold cycle.
  set (st1 := reload_positions (positions_snapshot input) st).
  set (st2 := check_email_for_tickers (mails input) st1).
  assert (E : fetch_count st2 = fetch_count st).
  { subst st2. rewrite fetch_count_check_email. subst st1. unfold reload_positions.
    destruct (positions_snapshot input); reflexivity. }
  pose proof (process_next_ticker_fetches market st2) as Hb.
  destruct (fst (get_first_ticker_from_scanner st2)); lia.
Qed.

(** X21: the price service is called at most twice per cycle, whatever the
    number of queued tickers and alerts: over a run of cycles the number
    of downloads grows by at most two per cycle. *)
Theorem run_cycles_fetch_bound `{SetOrder} (market : @market_oracle F)
    (inputs : list cycle_input) (st : state) :
  fetch_count (run_cycles market inputs st) <= fetch_count st + 2 * length inputs.
Proof.
  unfold run_cycles. revert st.
  induction inputs as [|input inputs IH]; intros st; [cbn; lia|].
  cbn [fold_left length]. etrans; [apply IH|].
  pose proof (cycle_fetch_count market input st) as Hc. unfold max_retries in Hc. lia.
Qed.

End QueueFiles.

Lemma load_symbols_round_trip_witness :
  Screener._load_symbols [txt "AAPL"; txt "GO"] =
    Screener._load_symbols [txt " go 1.5"; txt ""; txt "aapl"; txt "GO x"]
  /\ Forall clean [txt "AAPL"; txt "GO"].
Proof.
  apply (load_symbols_round_trip [txt " go 1.5"; txt ""; txt "aapl"; txt "GO x"]
           [txt "AAPL"; txt "GO"]).
  intros x. rewrite load_symbols_symbol_list, elem_of_list_to_set.
  change (Screener.symbol_list [txt " go 1.5"; txt ""; txt "aapl"; txt "GO x"])
    with [txt "GO"; txt "AAPL"; txt "GO"].
  rewrite !elem_of_cons, !elem_of_nil. tauto.
Defined.

Lemma add_to_watchlist_keeps_first_witness :
  let st := one_queued "AAPL" in
  Screener.watchlist
    (Screener.add_to_watchlist (txt "AAPL") (price 2)
       (Screener.add_to_watchlist (txt "AAPL") (price 1) st)) = Some [txt "AAPL 1.00"] /\
  Screener.add_to_watchlist (txt "AAPL") (price 2)
    (Screener.add_to_watchlist (txt "AAPL") (price 1) st) =
  Screener.add_to_watchlist (txt "AAPL") (price 1) st.
Proof.
  intros st. split; [vm_compute; reflexivity|].
  apply (add_to_watchlist_keeps_first (txt "AAPL") (price 1) (price 2) st).
  repeat split; [discriminate|reflexivity..].
Defined.
